(** * IRBA claims pipeline: preprocessing, master join, rule flags, rollups

    A shallow embedding of [irba.py].  Tables are lists of rows, a cell
    that pandas holds as NaN / NaT / None is [None], and every derived
    column is a function of the row it is computed from. *)

From Stdlib Require Import ZArith NArith List Bool String Ascii Lia.
From Stdlib Require Import Permutation Sorted.
Import ListNotations.

Local Open Scope Z_scope.

(** ** Cell-level pandas operations *)

(** Element-wise arithmetic on two nullable cells: null if either is. *)
Definition nan_sub (x y : option Z) : option Z :=
  match x, y with
  | Some a, Some b => Some (a - b)
  | _, _ => None
  end.

Definition nan_map (f : Z -> Z) (x : option Z) : option Z :=
  match x with
  | Some a => Some (f a)
  | None => None
  end.

(** Comparisons of a nullable numeric cell with a scalar.  pandas
    evaluates every comparison with NaN to [False]. *)
Definition series_gt (x : option Z) (c : Z) : bool :=
  match x with Some a => c <? a | None => false end.

Definition series_le (x : option Z) (c : Z) : bool :=
  match x with Some a => a <=? c | None => false end.

Definition series_lt (x : option Z) (c : Z) : bool :=
  match x with Some a => a <? c | None => false end.

Definition series_eq (x : option Z) (c : Z) : bool :=
  match x with Some a => a =? c | None => false end.

Definition isna {A : Type} (x : option A) : bool :=
  match x with Some _ => false | None => true end.

Definition notna {A : Type} (x : option A) : bool := negb (isna x).

(** [col.loc[mask] = None] on one cell. *)
Definition set_null_where (mask : bool) (x : option Z) : option Z :=
  if mask then None else x.

(** ** Timestamps

    A parsed date is a pandas [Timestamp]: nanoseconds since
    1970-01-01T00:00, [None] for NaT. *)

Definition Timestamp := Z.

Definition NS_PER_DAY : Z := 86400000000000.

(** Days since the epoch of a proleptic Gregorian calendar date. *)
Definition days_from_civil (y m d : Z) : Z :=
  let y' := if m <=? 2 then y - 1 else y in
  let era := y' / 400 in
  let yoe := y' - era * 400 in
  let mp := if 2 <? m then m - 3 else m + 9 in
  let doy := (153 * mp + 2) / 5 + d - 1 in
  let doe := yoe * 365 + yoe / 4 - yoe / 100 + doy in
  era * 146097 + doe - 719468.

(** Calendar year of a day number ([.dt.year] works on this). *)
Definition year_from_days (days : Z) : Z :=
  let z := days + 719468 in
  let era := z / 146097 in
  let doe := z - era * 146097 in
  let yoe := (doe - doe / 1460 + doe / 36524 - doe / 146096) / 365 in
  let doy := doe - (365 * yoe + yoe / 4 - yoe / 100) in
  let mp := (5 * doy + 2) / 153 in
  let m := if mp <? 10 then mp + 3 else mp - 9 in
  yoe + era * 400 + (if m <=? 2 then 1 else 0).

(** [.dt.year] and [.dt.days]. *)
Definition dt_year (t : option Timestamp) : option Z :=
  nan_map (fun ns => year_from_days (ns / NS_PER_DAY)) t.

Definition dt_days (delta : option Z) : option Z :=
  nan_map (fun ns => ns / NS_PER_DAY) delta.

(** *** [pd.to_datetime(cell, errors="coerce")] for the ISO layout

    Only the calendar-date layout [YYYY-MM-DD] is read here; the
    pipeline below takes the parsed cell, so nothing else depends on
    which layouts the parser accepts. *)

Definition digit_of (c : ascii) : option Z :=
  let n := Z.of_N (N_of_ascii c) in
  if (48 <=? n) && (n <=? 57) then Some (n - 48) else None.

Fixpoint digits_value (acc : Z) (l : list ascii) : option Z :=
  match l with
  | [] => Some acc
  | c :: t =>
      match digit_of c with
      | Some d => digits_value (10 * acc + d) t
      | None => None
      end
  end.

Definition is_leap (y : Z) : bool :=
  ((y mod 4 =? 0) && negb (y mod 100 =? 0)) || (y mod 400 =? 0).

Definition days_in_month (y m : Z) : Z :=
  if m =? 2 then (if is_leap y then 29 else 28)
  else if (m =? 4) || (m =? 6) || (m =? 9) || (m =? 11) then 30
  else 31.

Definition INT64_MAX : Z := 9223372036854775807.

Definition to_datetime (cell : option string) : option Timestamp :=
  match cell with
  | None => None
  | Some s =>
      match list_ascii_of_string s with
      | [y1; y2; y3; y4; s1; m1; m2; s2; d1; d2] =>
          if (Ascii.eqb s1 "-") && (Ascii.eqb s2 "-") then
            match digits_value 0 [y1; y2; y3; y4],
                  digits_value 0 [m1; m2],
                  digits_value 0 [d1; d2] with
            | Some y, Some m, Some d =>
                let ns := days_from_civil y m d * NS_PER_DAY in
                if (1 <=? m) && (m <=? 12) && (1 <=? d)
                   && (d <=? days_in_month y m)
                   && (- INT64_MAX <=? ns) && (ns <=? INT64_MAX)
                then Some ns else None
            | _, _, _ => None
            end
          else None
      | _ => None
      end
  end.

(** ** Input tables *)

(** [Claim_Basic.csv] after the two [pd.to_datetime] assignments. *)
Record ClaimRow := {
  Claim_ID : option string;
  c_Policy_ID : option string;
  c_Hospital_ID : option string;
  Admission_Date : option Timestamp;
  Discharged_Date : option Timestamp
}.

(** [Policy_Info.csv] after its [pd.to_datetime] assignment. *)
Record PolicyRow := {
  Policy_ID : option string;
  Inception_Date : option Timestamp;
  Birth_Year : option Z;
  Gender : option string;
  Product : option string;
  Agent : option string
}.

Record HospitalRow := {
  Hospital_ID : option string;
  Location : option string
}.

Record DiagnosisRow := {
  d_Claim_ID : option string;
  Diagnosis : option string
}.

Record ClaimDoctorRow := {
  cd_Claim_ID : option string;
  Doctor_ID : option string
}.

(** ** Preprocessing *)

(** [(Discharged - Admission).dt.days + 1], then negative values are
    overwritten with null. *)
Definition Length_of_Stay (c : ClaimRow) : option Z :=
  let raw :=
    nan_map (fun d => d + 1)
      (dt_days (nan_sub (Discharged_Date c) (Admission_Date c))) in
  set_null_where (series_lt raw 0) raw.

(** Arithmetic on an int64 column wraps around silently. *)
Definition INT64_MIN : Z := - 9223372036854775808.

Definition wrap64 (z : Z) : Z :=
  (z - INT64_MIN) mod 18446744073709551616 + INT64_MIN.

(** [Inception Date.dt.year - Birth Year], an int64 subtraction, with
    negative values nulled. *)
Definition Age (p : PolicyRow) : option Z :=
  let raw :=
    nan_map wrap64 (nan_sub (dt_year (Inception_Date p)) (Birth_Year p)) in
  set_null_where (series_lt raw 0) raw.


(** ** Specialty normalisation

    A Python [str] is a sequence of Unicode code points.  The casing
    tables below are exact on ASCII, on U+0130 (capital I with dot
    above, whose lowercase is the two code points U+0069 U+0307) and
    on the combining dot U+0307 itself; any other code point is
    carried unchanged as an uncased character. *)

Definition str := list N.

Definition of_string (s : string) : str :=
  map N_of_ascii (list_ascii_of_string s).

Local Open Scope N_scope.

Definition is_upper_ascii (c : N) : bool := (65 <=? c) && (c <=? 90).
Definition is_lower_ascii (c : N) : bool := (97 <=? c) && (c <=? 122).

(** [str.isspace] for one code point. *)
Definition is_space (c : N) : bool :=
  ((9 <=? c) && (c <=? 13)) || ((28 <=? c) && (c <=? 32))
  || (c =? 133) || (c =? 160) || (c =? 5760)
  || ((8192 <=? c) && (c <=? 8202))
  || (c =? 8232) || (c =? 8233) || (c =? 8239) || (c =? 8287)
  || (c =? 12288).

Definition is_cased (c : N) : bool :=
  is_upper_ascii c || is_lower_ascii c || (c =? 304).

(** Full lowercase and titlecase mappings of one code point. *)
Definition py_lower (c : N) : list N :=
  if c =? 304 then [105; 775]
  else if is_upper_ascii c then [c + 32]
  else [c].

Definition py_title (c : N) : list N :=
  if is_lower_ascii c then [c - 32] else [c].

(** [str.title]: a character that follows a cased one is lowercased,
    any other is titlecased; the state is the casedness of the
    original character. *)
Definition title_char (previous_is_cased : bool) (c : N) : list N :=
  if previous_is_cased then py_lower c else py_title c.

Fixpoint title_from (previous_is_cased : bool) (s : str) : str :=
  match s with
  | [] => []
  | c :: t =>
      (title_char previous_is_cased c ++ title_from (is_cased c) t)%list
  end.

Definition title (s : str) : str := title_from false s.

Fixpoint lstrip (s : str) : str :=
  match s with
  | [] => []
  | c :: t => if is_space c then lstrip t else s
  end.

Fixpoint rstrip (s : str) : str :=
  match s with
  | [] => []
  | c :: t =>
      match rstrip t with
      | [] => if is_space c then [] else [c]
      | t' => c :: t'
      end
  end.

Definition strip (s : str) : str := rstrip (lstrip s).

Fixpoint str_eqb (a b : str) : bool :=
  match a, b with
  | [], [] => true
  | x :: a', y :: b' => (x =? y) && str_eqb a' b'
  | _, _ => false
  end.

(** Strings made of ASCII characters only, and the check run on each
    of the 128 ASCII characters in the proofs below: [str.title]
    writes one ASCII character of the same casedness and spacing, and
    writing it again changes nothing. *)
Definition ascii_str (s : str) : Prop := Forall (fun c => c < 128) s.

Definition title_char_ok (c : N) : bool :=
  forallb
    (fun b =>
       match title_char b c with
       | [x] =>
           (x <? 128) && Bool.eqb (is_cased x) (is_cased c)
           && Bool.eqb (is_space x) (is_space c)
           && str_eqb (title_char b x) [x]
       | _ => false
       end)
    [true; false].

Local Close Scope N_scope.

(** The [replace] dictionary of the source, in its order. *)
Definition specialty_synonyms : list (str * str) :=
  [ (of_string "Paediatrician", of_string "Paediatrician");
    (of_string "Pediatrician", of_string "Paediatrician");
    (of_string "Paediatrics", of_string "Paediatrician") ].

(** [Series.replace(dict)] on one value: a whole-value match is
    replaced, anything else is kept. *)
Fixpoint replace (table : list (str * str)) (s : str) : str :=
  match table with
  | [] => s
  | (k, v) :: rest => if str_eqb s k then v else replace rest s
  end.

(** Both assignments to [doctor_info["Specialty"]]; the [.str]
    accessor leaves a null cell null. *)
Definition Specialty (raw : option str) : option str :=
  match raw with
  | None => None
  | Some s => Some (replace specialty_synonyms (title (strip s)))
  end.

(** *** The string backend as a parameter

    [.str.title()] runs on whichever string storage pandas gave the
    column: Python objects, where it is CPython's [str.title] with the
    full case mappings above, or Arrow strings, where it is
    [utf8_title] with one-to-one case mappings.  [CaseTables] holds
    what the two differ in: which characters are cased and what is
    written for a character after a cased and after an uncased one.
    The tables are per character; CPython's choice between the two
    lowercase forms of capital sigma, which looks at the neighbouring
    characters, is outside them. *)
Record CaseTables := {
  cased : N -> bool;
  lower_of : N -> list N;
  title_of : N -> list N
}.

Definition title_char_with (T : CaseTables) (previous_is_cased : bool)
  (c : N) : list N :=
  if previous_is_cased then lower_of T c else title_of T c.

Fixpoint title_from_with (T : CaseTables) (previous_is_cased : bool)
  (s : str) : str :=
  match s with
  | [] => []
  | c :: t =>
      (title_char_with T previous_is_cased c
         ++ title_from_with T (cased T c) t)%list
  end.

Definition title_with (T : CaseTables) (s : str) : str :=
  title_from_with T false s.

Definition Specialty_with (T : CaseTables) (raw : option str)
  : option str :=
  match raw with
  | None => None
  | Some s => Some (replace specialty_synonyms (title_with T (strip s)))
  end.

(** CPython's tables, as far as they are written out above, and
    Arrow's, which differ from them at U+0130: its one-to-one
    lowercase is "i". *)
Definition python_tables : CaseTables :=
  {| cased := is_cased; lower_of := py_lower; title_of := py_title |}.

Definition arrow_tables : CaseTables :=
  {| cased := is_cased;
     lower_of := fun c => if (c =? 304)%N then [105%N] else py_lower c;
     title_of := py_title |}.

(** Tables that treat the ASCII characters as ASCII does. *)
Definition ascii_exact (T : CaseTables) : Prop :=
  forall c, (c < 128)%N ->
            cased T c = is_cased c
            /\ lower_of T c = py_lower c /\ title_of T c = py_title c.

(** A character that title-casing writes, in either state, as a single
    character of the same casedness and spacing which it then leaves
    unchanged. *)
Definition stable_char (T : CaseTables) (c : N) : bool :=
  forallb
    (fun b =>
       match title_char_with T b c with
       | [x] =>
           Bool.eqb (cased T x) (cased T c)
           && Bool.eqb (is_space x) (is_space c)
           && str_eqb (title_char_with T b x) [x]
       | _ => false
       end)
    [true; false].

Definition stable_str (T : CaseTables) (s : str) : Prop :=
  Forall (fun c => stable_char T c = true) s.

(** ** Keys, group-by and left merge *)

(** Merge keys: pandas matches a null key with a null key. *)
Definition key_eqb (a b : option string) : bool :=
  match a, b with
  | Some x, Some y => String.eqb x y
  | None, None => true
  | _, _ => false
  end.

(** Group keys of [groupby(col)]: the distinct non-null keys in
    ascending order ([sort=True], [dropna=True]).  Keys are text here
    and ascend as text; a key column that [read_csv] types as integer
    has the same groups but lists them in numeric order, so the
    properties below say which keys a grouped table has and leave
    their order to the examples, whose keys are text. *)
Fixpoint insert_key (k : string) (l : list string) : list string :=
  match l with
  | [] => [k]
  | h :: t =>
      match String.compare k h with
      | Eq => l
      | Lt => k :: l
      | Gt => h :: insert_key k t
      end
  end.

Fixpoint group_keys {A : Type} (key : A -> option string) (rows : list A)
  : list string :=
  match rows with
  | [] => []
  | a :: t =>
      match key a with
      | Some k => insert_key k (group_keys key t)
      | None => group_keys key t
      end
  end.

(** The order the group keys come out in. *)
Definition keys_ascending (l : list string) : Prop :=
  StronglySorted (fun a b => String.compare a b = Lt) l.

Definition in_group {A : Type} (key : A -> option string) (k : string)
  (a : A) : bool :=
  key_eqb (key a) (Some k).

(** One row of [groupby(key)[col].count().reset_index(name=...)]. *)
Record CountRow := {
  cnt_Claim_ID : string;
  cnt_value : Z
}.

(** [count] counts the non-null cells of the column in each group. *)
Definition groupby_count {A B : Type} (key : A -> option string)
  (col : A -> option B) (rows : list A) : list CountRow :=
  map (fun k =>
         {| cnt_Claim_ID := k;
            cnt_value :=
              Z.of_nat (List.length (filter (fun a => notna (col a))
                                  (filter (in_group key k) rows))) |})
      (group_keys key rows).

(** [pd.merge(left, right, on=key, how="left")]: left order is kept,
    each left row is paired with every matching right row in right
    order, or once with nulls when there is none. *)
Definition merge_left {L R : Type} (kl : L -> option string)
  (kr : R -> option string) (left : list L) (right : list R)
  : list (L * option R) :=
  flat_map
    (fun l =>
       match filter (fun r => key_eqb (kl l) (kr r)) right with
       | [] => [(l, None)]
       | ms => map (fun r => (l, Some r)) ms
       end)
    left.

(** What a left merge attaches to a left row with key [k]: a right
    row with an equal key, or nothing when no right row has one. *)
Definition joined {R : Type} (k : option string) (kr : R -> option string)
  (right : list R) (o : option R) : Prop :=
  match o with
  | Some r => In r right /\ key_eqb k (kr r) = true
  | None => forall r, In r right -> key_eqb k (kr r) = false
  end.

(** ** The master table *)

Definition diagnosis_count (claim_diagnosis : list DiagnosisRow)
  : list CountRow :=
  groupby_count d_Claim_ID Diagnosis claim_diagnosis.

Definition doctor_count (claim_doctor : list ClaimDoctorRow)
  : list CountRow :=
  groupby_count cd_Claim_ID Doctor_ID claim_doctor.

Definition count_key (r : CountRow) : option string :=
  Some (cnt_Claim_ID r).

(** A row of [master]: the claim's own columns, the two counts, and
    the policy and hospital rows the left merges attached (absent
    when the claim matched none, which leaves their columns null). *)
Record MasterRow := {
  claim : ClaimRow;
  Num_Diagnoses : option Z;
  Num_Doctors : option Z;
  policy : option PolicyRow;
  hospital : option HospitalRow
}.

Definition master_row
  (x : (((ClaimRow * option CountRow) * option CountRow)
        * option PolicyRow) * option HospitalRow) : MasterRow :=
  match x with
  | ((((c, dc), dr), p), h) =>
      {| claim := c;
         Num_Diagnoses := option_map cnt_value dc;
         Num_Doctors := option_map cnt_value dr;
         policy := p;
         hospital := h |}
  end.

Definition master (claim_basic : list ClaimRow)
  (claim_diagnosis : list DiagnosisRow)
  (claim_doctor : list ClaimDoctorRow)
  (policy_info : list PolicyRow)
  (hospital_info : list HospitalRow) : list MasterRow :=
  let m1 := merge_left Claim_ID count_key
              claim_basic (diagnosis_count claim_diagnosis) in
  let m2 := merge_left (fun x => Claim_ID (fst x)) count_key
              m1 (doctor_count claim_doctor) in
  let m3 := merge_left (fun x => c_Policy_ID (fst (fst x))) Policy_ID
              m2 policy_info in
  let m4 := merge_left (fun x => c_Hospital_ID (fst (fst (fst x))))
              Hospital_ID m3 hospital_info in
  map master_row m4.

(** Columns of [master]. *)
Definition master_Claim_ID (r : MasterRow) : option string :=
  Claim_ID (claim r).

Definition master_Hospital_ID (r : MasterRow) : option string :=
  c_Hospital_ID (claim r).

Definition master_Length_of_Stay (r : MasterRow) : option Z :=
  Length_of_Stay (claim r).

Definition master_Age (r : MasterRow) : option Z :=
  match policy r with Some p => Age p | None => None end.

Definition master_Agent (r : MasterRow) : option string :=
  match policy r with Some p => Agent p | None => None end.

Definition master_Birth_Year (r : MasterRow) : option Z :=
  match policy r with Some p => Birth_Year p | None => None end.

Definition master_Inception_Date (r : MasterRow) : option Timestamp :=
  match policy r with Some p => Inception_Date p | None => None end.

Definition master_Gender (r : MasterRow) : option string :=
  match policy r with Some p => Gender p | None => None end.

Definition master_Product (r : MasterRow) : option string :=
  match policy r with Some p => Product p | None => None end.

(** ** Rule flags *)

(** The numeric columns of [master] by name. *)
Definition master_numeric_column (name : string)
  : option (MasterRow -> option Z) :=
  if String.eqb name "Length_of_Stay" then Some master_Length_of_Stay
  else if String.eqb name "Num_Diagnoses" then Some Num_Diagnoses
  else if String.eqb name "Num_Doctors" then Some Num_Doctors
  else if String.eqb name "Age" then Some master_Age
  else if String.eqb name "Birth Year" then Some master_Birth_Year
  else None.

(** [master.get(name, default)] read at one row: the column when the
    frame has it, the scalar default only when the column is absent. *)
Definition master_get (name : string) (default : Z) (r : MasterRow)
  : option Z :=
  match master_numeric_column name with
  | Some col => col r
  | None => Some default
  end.

Definition flag_many_diagnoses (r : MasterRow) : bool :=
  series_gt (master_get "Num_Diagnoses" 0 r) 3.

Definition flag_shortstay_manydiag (r : MasterRow) : bool :=
  series_le (master_get "Length_of_Stay" 0 r) 2
  && series_gt (master_get "Num_Diagnoses" 0 r) 2.

Definition flag_longstay_onediag (r : MasterRow) : bool :=
  series_gt (master_get "Length_of_Stay" 0 r) 7
  && series_eq (master_get "Num_Diagnoses" 0 r) 1.

Definition flag_manydoctors (r : MasterRow) : bool :=
  series_gt (master_get "Num_Doctors" 0 r) 2.

Definition flag_age_missing (r : MasterRow) : bool :=
  isna (master_Age r).

Inductive Rule :=
| many_diagnoses
| shortstay_manydiag
| longstay_onediag
| manydoctors
| age_missing.

(** The [flag_] columns in the order they were added. *)
Definition rule_flags : list Rule :=
  [many_diagnoses; shortstay_manydiag; longstay_onediag; manydoctors;
   age_missing].

Definition flag (rule : Rule) : MasterRow -> bool :=
  match rule with
  | many_diagnoses => flag_many_diagnoses
  | shortstay_manydiag => flag_shortstay_manydiag
  | longstay_onediag => flag_longstay_onediag
  | manydoctors => flag_manydoctors
  | age_missing => flag_age_missing
  end.

Definition rule_index (rule : Rule) : nat :=
  match rule with
  | many_diagnoses => 0
  | shortstay_manydiag => 1
  | longstay_onediag => 2
  | manydoctors => 3
  | age_missing => 4
  end.

Definition claims_per_rule (rule : Rule) (m : list MasterRow)
  : list (option string) :=
  map master_Claim_ID (filter (flag rule) m).

(** ** Rollups *)

(** One row of [groupby(key)[rule_flags].sum()]: the group key (the
    index) and one sum per rule, in [rule_flags] order. *)
Record FlagSums := {
  g_key : string;
  g_sums : list Z
}.

Definition g_sum (rule : Rule) (g : FlagSums) : Z :=
  nth (rule_index rule) (g_sums g) 0.

(** A column sum skips null cells and counts [True] as one. *)
Definition cell_value (x : option bool) : Z :=
  match x with Some true => 1 | _ => 0 end.

Definition nansum (cells : list (option bool)) : Z :=
  fold_right Z.add 0 (map cell_value cells).

Definition groupby_sum {A : Type} (key : A -> option string)
  (col : Rule -> A -> option bool) (rows : list A) : list FlagSums :=
  map (fun k =>
         {| g_key := k;
            g_sums :=
              map (fun rule =>
                     nansum (map (col rule) (filter (in_group key k) rows)))
                  rule_flags |})
      (group_keys key rows).

(** [frame.sum(axis=1)] over the rule columns. *)
Definition Total_Flags (g : FlagSums) : Z :=
  fold_right Z.add 0 (g_sums g).

Definition hospital_flags (m : list MasterRow) : list FlagSums :=
  groupby_sum master_Hospital_ID (fun rule r => Some (flag rule r)) m.

Definition agent_flags (m : list MasterRow) : list FlagSums :=
  groupby_sum master_Agent (fun rule r => Some (flag rule r)) m.

(** [claim_doctor.merge(master[["Claim ID"] + rule_flags], on="Claim ID",
    how="left")]: the flags are read off the joined master row and are
    null when the assignment matched none. *)
Definition doctor_flags (claim_doctor : list ClaimDoctorRow)
  (m : list MasterRow) : list (ClaimDoctorRow * option MasterRow) :=
  merge_left cd_Claim_ID master_Claim_ID claim_doctor m.

Definition joined_flag (rule : Rule)
  (x : ClaimDoctorRow * option MasterRow) : option bool :=
  option_map (flag rule) (snd x).

Definition doctor_flags_sum (claim_doctor : list ClaimDoctorRow)
  (m : list MasterRow) : list FlagSums :=
  groupby_sum (fun x => Doctor_ID (fst x)) joined_flag
    (doctor_flags claim_doctor m).

(** Reading the doctor rollup: the assignments of one doctor, the
    master rows an assignment is joined with, how many of them carry
    a flag, and whether the assignment's claim carries it at all. *)
Definition assignments_of (d : string)
  (claim_doctor : list ClaimDoctorRow) : list ClaimDoctorRow :=
  filter (fun a => key_eqb (Doctor_ID a) (Some d)) claim_doctor.

Definition matches (m : list MasterRow) (a : ClaimDoctorRow)
  : list MasterRow :=
  filter (fun r => key_eqb (cd_Claim_ID a) (master_Claim_ID r)) m.

Definition flagged_matches (rule : Rule) (m : list MasterRow)
  (a : ClaimDoctorRow) : Z :=
  Z.of_nat (List.length (filter (flag rule) (matches m a))).

Definition flagged_claim (rule : Rule) (m : list MasterRow)
  (a : ClaimDoctorRow) : bool :=
  existsb (flag rule) (matches m a).

(** *** Ranking

    [sort_values("Total_Flags", ascending=False)] runs with the default
    [kind="quicksort"], for which pandas and NumPy promise a sorted
    rearrangement and nothing about the order of equal keys.
    [sort_values_desc] is that promise, a relation that every
    descending rearrangement of the frame meets; the sort the code
    runs is [sort_values_by] further down. *)
Definition descending (l : list FlagSums) : Prop :=
  StronglySorted (fun a b => Total_Flags b <= Total_Flags a) l.

Definition sort_values_desc (frame sorted : list FlagSums) : Prop :=
  Permutation frame sorted /\ descending sorted.

Definition head {A : Type} (n : nat) (l : list A) : list A := firstn n l.

Definition top_ranked (frame top : list FlagSums) : Prop :=
  exists sorted, sort_values_desc frame sorted /\ top = head 10 sorted.

(** One admissible outcome, computed: insertion into a descending
    list in front of the first row that is not larger. *)
Fixpoint insert_desc (g : FlagSums) (l : list FlagSums) : list FlagSums :=
  match l with
  | [] => [g]
  | h :: t =>
      if Total_Flags h <=? Total_Flags g then g :: l
      else h :: insert_desc g t
  end.

Definition sort_values_stable (frame : list FlagSums) : list FlagSums :=
  fold_right insert_desc [] frame.



(** *** The sort behind the ranking

    [DataFrame.sort_values(col, ascending=False)] computes an indexer
    with [nargsort]: the column is reversed, argsorted ascending with
    the requested [kind] and the resulting positions are mapped back
    and reversed; the frame's rows are then taken in that order.  The
    argsort is a parameter here; what NumPy promises of every [kind]
    is [argsort_contract]. *)
Definition nargsort_descending (argsort : list Z -> list nat)
  (items : list Z) : list nat :=
  let idx := rev (seq 0 (List.length items)) in
  rev (map (fun j => nth j idx 0%nat) (argsort (rev items))).

Definition take {A : Type} (frame : list A) (indexer : list nat) : list A :=
  flat_map
    (fun i => match nth_error frame i with Some x => [x] | None => [] end)
    indexer.

Definition sort_values_by (argsort : list Z -> list nat)
  (frame : list FlagSums) : list FlagSums :=
  take frame (nargsort_descending argsort (map Total_Flags frame)).





(** *** NumPy's quicksort argsort

    The default [kind="quicksort"] in its portable form
    ([npy_aquicksort]): an introsort over the index array that
    partitions around the median of three while a range has more than
    17 elements, hands a range to heapsort once the depth limit is
    used up, and finishes each small range by insertion sort.  Builds
    that dispatch to a vectorised sort may order equal keys
    differently, which is why the ranking is shown descending both
    for this routine and for any argsort that meets the contract. *)
Definition SMALL_QUICKSORT : nat := 16.

Fixpoint aset (a : list nat) (i x : nat) : list nat :=
  match a, i with
  | [], _ => []
  | _ :: t, O => x :: t
  | h :: t, S i' => h :: aset t i' x
  end.

Definition aget (a : list nat) (i : nat) : nat := nth i a 0%nat.

Definition aswap (a : list nat) (i j : nat) : list nat :=
  aset (aset a i (aget a j)) j (aget a i).

Definition npy_get_msb (n : nat) : Z := Z.log2 (Z.of_nat n).

Section NumpyQuicksort.

Variable v : list Z.

(** [v[i] < v[j]] *)
Definition vless (i j : nat) : bool := nth i v 0 <? nth j v 0.

(** Heapsort of the [n] entries of [a] from position [base]; the heap
    is indexed from 1. *)
Definition hget (a : list nat) (base k : nat) : nat :=
  aget a (base + k - 1).

Definition hset (a : list nat) (base k x : nat) : list nat :=
  aset a (base + k - 1) x.

Fixpoint sift (fuel : nat) (a : list nat) (base n tmp i j : nat)
  : list nat :=
  match fuel with
  | O => hset a base i tmp
  | S fuel' =>
      if (j <=? n)%nat then
        let j' :=
          if (j <? n)%nat && vless (hget a base j) (hget a base (j + 1))
          then (j + 1)%nat else j in
        if vless tmp (hget a base j') then
          sift fuel' (hset a base i (hget a base j')) base n tmp j'
            (j' + j')
        else hset a base i tmp
      else hset a base i tmp
  end.

Fixpoint heap_build (l : nat) (a : list nat) (base n : nat) : list nat :=
  match l with
  | O => a
  | S l' =>
      heap_build l' (sift n a base n (hget a base l) l (l + l)) base n
  end.

Fixpoint heap_extract (n : nat) (a : list nat) (base : nat) : list nat :=
  match n with
  | O => a
  | S n' =>
      if (n' =? 0)%nat then a
      else
        let tmp := hget a base n in
        let a' := hset a base n (hget a base 1) in
        heap_extract n' (sift n' a' base n' tmp 1 2) base
  end.

Definition aheapsort (a : list nat) (base n : nat) : list nat :=
  heap_extract n (heap_build (n / 2) a base n) base.

(** The two scans of the partition loop: [do ++pi while v[a[pi]] < vp]
    and [do --pj while vp < v[a[pj]]]. *)
Fixpoint scan_up (fuel : nat) (a : list nat) (vp : Z) (pi : nat) : nat :=
  match fuel with
  | O => S pi
  | S fuel' =>
      if nth (aget a (S pi)) v 0 <? vp then scan_up fuel' a vp (S pi)
      else S pi
  end.

Fixpoint scan_down (fuel : nat) (a : list nat) (vp : Z) (pj : nat) : nat :=
  match fuel with
  | O => Nat.pred pj
  | S fuel' =>
      if vp <? nth (aget a (Nat.pred pj)) v 0
      then scan_down fuel' a vp (Nat.pred pj)
      else Nat.pred pj
  end.

Fixpoint partition_loop (fuel : nat) (a : list nat) (vp : Z) (pi pj : nat)
  : list nat * nat :=
  match fuel with
  | O => (a, pi)
  | S fuel' =>
      let pi' := scan_up (List.length a) a vp pi in
      let pj' := scan_down (List.length a) a vp pj in
      if (pj' <=? pi')%nat then (a, pi')
      else partition_loop fuel' (aswap a pi' pj') vp pi' pj'
  end.

(** One partition of the range [pl..pr]: returns the array and the
    final position of the pivot. *)
Definition partition_range (a : list nat) (pl pr : nat) : list nat * nat :=
  let pm := (pl + (pr - pl) / 2)%nat in
  let a1 := if vless (aget a pm) (aget a pl) then aswap a pm pl else a in
  let a2 := if vless (aget a1 pr) (aget a1 pm) then aswap a1 pr pm else a1 in
  let a3 := if vless (aget a2 pm) (aget a2 pl) then aswap a2 pm pl else a2 in
  let vp := nth (aget a3 pm) v 0 in
  let a4 := aswap a3 pm (pr - 1) in
  let (a5, pi) := partition_loop (List.length a) a4 vp pl (pr - 1) in
  (aswap a5 pi (pr - 1), pi).

(** Insertion sort of the range [pl..pr]. *)
Fixpoint insertion_shift (fuel : nat) (a : list nat) (vp : Z) (pl pj : nat)
  : list nat * nat :=
  match fuel with
  | O => (a, pj)
  | S fuel' =>
      if (pl <? pj)%nat && (vp <? nth (aget a (pj - 1)) v 0) then
        insertion_shift fuel' (aset a pj (aget a (pj - 1))) vp pl (pj - 1)
      else (a, pj)
  end.

Fixpoint insertion_range (count : nat) (a : list nat) (pl pi : nat)
  : list nat :=
  match count with
  | O => a
  | S count' =>
      let vi := aget a pi in
      let (a', pj) :=
        insertion_shift (List.length a) a (nth vi v 0) pl pi in
      insertion_range count' (aset a' pj vi) pl (S pi)
  end.

(** The main loop.  [at_top] tells whether control is at the head of
    the outer loop, the only place where the depth limit is tested;
    the stack holds the postponed ranges with their depth. *)
Fixpoint aquicksort_loop (fuel : nat) (at_top : bool) (a : list nat)
  (pl pr : nat) (cdepth : Z) (stack : list (nat * nat * Z)) : list nat :=
  match fuel with
  | O => a
  | S fuel' =>
      let pop a' :=
        match stack with
        | [] => a'
        | (pl', pr', d) :: rest =>
            aquicksort_loop fuel' true a' pl' pr' d rest
        end in
      if at_top && (cdepth <? 0) then
        pop (aheapsort a pl (pr - pl + 1))
      else if (SMALL_QUICKSORT <? pr - pl)%nat then
        let (a', pi) := partition_range a pl pr in
        let cdepth' := cdepth - 1 in
        if (pi - pl <? pr - pi)%nat then
          aquicksort_loop fuel' false a' pl (pi - 1) cdepth'
            ((S pi, pr, cdepth') :: stack)
        else
          aquicksort_loop fuel' false a' (S pi) pr cdepth'
            ((pl, (pi - 1)%nat, cdepth') :: stack)
      else
        pop (insertion_range (pr - pl) a pl (S pl))
  end.

End NumpyQuicksort.

Definition np_argsort_quicksort (vals : list Z) : list nat :=
  let n := List.length vals in
  aquicksort_loop vals (2 * n + 2) true (seq 0 n) 0 (n - 1)
    (npy_get_msb n * 2) [].

(** *** What the quicksort is shown to do

    [val] reads the value an index array points to.  [shuffled] says
    that an array differs from another only inside a range and holds
    the same entries there; [sorted_on] that the values pointed to
    ascend over a range; [heap_from] that, in the heap laid over a
    range, no child from node [lo] on exceeds its parent. *)
Definition val (v : list Z) (a : list nat) (p : nat) : Z :=
  nth (aget a p) v 0.

Definition shuffled (pl pr : nat) (a a' : list nat) : Prop :=
  List.length a' = List.length a
  /\ (forall k, (k < pl \/ pr < k)%nat -> aget a' k = aget a k)
  /\ (forall k, (pl <= k <= pr)%nat ->
        exists k', (pl <= k' <= pr)%nat /\ aget a' k = aget a k')
  /\ (forall k, (pl <= k <= pr)%nat ->
        exists k', (pl <= k' <= pr)%nat /\ aget a k = aget a' k').










Definition top_doctors (claim_doctor : list ClaimDoctorRow)
  (m : list MasterRow) : list FlagSums :=
  head 10
    (sort_values_by np_argsort_quicksort (doctor_flags_sum claim_doctor m)).

Definition top_agents (m : list MasterRow) : list FlagSums :=
  head 10 (sort_values_by np_argsort_quicksort (agent_flags m)).


(** ** Per-rule lists and exploratory counts *)

(** [Series.unique()]: the values in order of first appearance, a
    null value included once; [seen] is the table of values already
    produced. *)
Fixpoint unique_from (seen : list (option string))
  (l : list (option string)) : list (option string) :=
  match l with
  | [] => []
  | x :: t =>
      if existsb (key_eqb x) seen then unique_from seen t
      else x :: unique_from (x :: seen) t
  end.

Definition unique (l : list (option string)) : list (option string) :=
  unique_from [] l.

Definition hospitals_per_rule (rule : Rule) (m : list MasterRow)
  : list (option string) :=
  unique (map master_Hospital_ID (filter (flag rule) m)).

Definition doctors_per_rule (rule : Rule) (m : list MasterRow)
  : list (option Z) :=
  map Num_Doctors (filter (flag rule) m).

Definition agents_per_rule (rule : Rule) (m : list MasterRow)
  : list (option string) :=
  unique (map master_Agent (filter (flag rule) m)).

(** The [groupby(col)["Policy ID"].count()] and
    [groupby("Location")["Hospital ID"].count()] tables of the
    exploratory tab; [cnt_Claim_ID] holds the group key. *)
Definition gender_count (policy_info : list PolicyRow) : list CountRow :=
  groupby_count Gender Policy_ID policy_info.

Definition product_count (policy_info : list PolicyRow) : list CountRow :=
  groupby_count Product Policy_ID policy_info.

Definition agent_count (policy_info : list PolicyRow) : list CountRow :=
  groupby_count Agent Policy_ID policy_info.

Definition location_count (hospital_info : list HospitalRow)
  : list CountRow :=
  groupby_count Location Hospital_ID hospital_info.

(** Sums of integer columns, and whether a row's key is one of the
    listed group keys. *)
Definition sumZ (l : list Z) : Z := fold_right Z.add 0 l.

Definition key_among {A : Type} (key : A -> option string)
  (ks : list string) (a : A) : bool :=
  existsb (fun k => in_group key k a) ks.

(** How many of the five flags a row carries. *)
Definition flags_of_row (r : MasterRow) : Z :=
  sumZ (map (fun rule => if flag rule r then 1 else 0) rule_flags).

(** ASCII lowercase of one character, used to compare strings up to
    letter case. *)
Definition lower_ascii (c : N) : N :=
  if is_upper_ascii c then (c + 32)%N else c.

Definition all_space (s : str) : Prop :=
  Forall (fun c => is_space c = true) s.

(** The check run on each ASCII character for the case-insensitivity
    proof: lowering a character changes neither what [str.title]
    writes for it nor its casedness. *)
Definition lower_char_ok (c : N) : bool :=
  Bool.eqb (is_cased (lower_ascii c)) (is_cased c)
  && forallb
       (fun b => str_eqb (title_char b (lower_ascii c)) (title_char b c))
       [true; false].

(** ** A small data set used for the concrete checks *)

Local Open Scope string_scope.

Definition mk_claim (id pol hosp : option string)
  (adm dis : option string) : ClaimRow :=
  {| Claim_ID := id; c_Policy_ID := pol; c_Hospital_ID := hosp;
     Admission_Date := to_datetime adm;
     Discharged_Date := to_datetime dis |}.

Definition ex_claim_C1 : ClaimRow :=
  mk_claim (Some "C1") (Some "P1") (Some "H1")
    (Some "2023-01-01") (Some "2023-01-10").

Definition ex_claim_C2 : ClaimRow :=
  mk_claim (Some "C2") (Some "P2") (Some "H2")
    (Some "not a date") (Some "2023-02-03").

Definition ex_claim_C3 : ClaimRow :=
  mk_claim (Some "C3") (Some "P9") None
    (Some "2023-03-05") (Some "2023-03-05").

Definition ex_claim_C4 : ClaimRow :=
  mk_claim (Some "C4") (Some "P1") (Some "H2")
    (Some "2023-04-10") (Some "2023-04-01").

Definition ex_claim_basic : list ClaimRow :=
  [ex_claim_C1; ex_claim_C2; ex_claim_C3; ex_claim_C4].

Definition ex_claim_diagnosis : list DiagnosisRow :=
  [ {| d_Claim_ID := Some "C2"; Diagnosis := Some "flu" |};
    {| d_Claim_ID := Some "C1"; Diagnosis := Some "asthma" |};
    {| d_Claim_ID := Some "C2"; Diagnosis := Some "cough" |};
    {| d_Claim_ID := Some "C2"; Diagnosis := Some "fever" |};
    {| d_Claim_ID := Some "C2"; Diagnosis := Some "rash" |} ].

Definition ex_claim_doctor : list ClaimDoctorRow :=
  [ {| cd_Claim_ID := Some "C1"; Doctor_ID := Some "D1" |};
    {| cd_Claim_ID := Some "C2"; Doctor_ID := Some "D1" |};
    {| cd_Claim_ID := Some "C2"; Doctor_ID := Some "D2" |};
    {| cd_Claim_ID := Some "C2"; Doctor_ID := Some "D3" |};
    {| cd_Claim_ID := Some "C3"; Doctor_ID := Some "D2" |};
    {| cd_Claim_ID := Some "C7"; Doctor_ID := Some "D3" |} ].

Definition ex_policy_P1 : PolicyRow :=
  {| Policy_ID := Some "P1";
     Inception_Date := to_datetime (Some "2023-01-01");
     Birth_Year := Some 1990; Gender := Some "F";
     Product := Some "Basic"; Agent := Some "A1" |}.

Definition ex_policy_P2 : PolicyRow :=
  {| Policy_ID := Some "P2";
     Inception_Date := to_datetime (Some "2020-06-30");
     Birth_Year := Some 2021; Gender := Some "M";
     Product := Some "Plus"; Agent := None |}.

Definition ex_policy_info : list PolicyRow := [ex_policy_P1; ex_policy_P2].

Definition ex_hospital_H1 : HospitalRow :=
  {| Hospital_ID := Some "H1"; Location := Some "North" |}.

Definition ex_hospital_H2 : HospitalRow :=
  {| Hospital_ID := Some "H2"; Location := Some "South" |}.

Definition ex_hospital_info : list HospitalRow :=
  [ex_hospital_H1; ex_hospital_H2].

Definition ex_master : list MasterRow :=
  master ex_claim_basic ex_claim_diagnosis ex_claim_doctor
    ex_policy_info ex_hospital_info.

(** The four rows of [ex_master], written out. *)
Definition ex_row_C1 : MasterRow :=
  {| claim := ex_claim_C1; Num_Diagnoses := Some 1; Num_Doctors := Some 1;
     policy := Some ex_policy_P1; hospital := Some ex_hospital_H1 |}.

Definition ex_row_C2 : MasterRow :=
  {| claim := ex_claim_C2; Num_Diagnoses := Some 4; Num_Doctors := Some 3;
     policy := Some ex_policy_P2; hospital := Some ex_hospital_H2 |}.

Definition ex_row_C3 : MasterRow :=
  {| claim := ex_claim_C3; Num_Diagnoses := None; Num_Doctors := Some 1;
     policy := None; hospital := None |}.

Definition ex_row_C4 : MasterRow :=
  {| claim := ex_claim_C4; Num_Diagnoses := None; Num_Doctors := None;
     policy := Some ex_policy_P1; hospital := Some ex_hospital_H2 |}.

(** The example with claim C1 listed twice in [claim_basic]. *)
Definition ex_master_dup : list MasterRow :=
  master (ex_claim_C1 :: ex_claim_basic) ex_claim_diagnosis ex_claim_doctor
    ex_policy_info ex_hospital_info.









(** The doctor rollup of the example: D1 and D2 tie on four flags. *)
Definition ex_sums_D1 : FlagSums :=
  {| g_key := "D1"; g_sums := [1; 0; 1; 1; 1] |}.

Definition ex_sums_D2 : FlagSums :=
  {| g_key := "D2"; g_sums := [1; 0; 0; 1; 2] |}.

Definition ex_sums_D3 : FlagSums :=
  {| g_key := "D3"; g_sums := [1; 0; 0; 1; 1] |}.

Local Close Scope string_scope.

(** * Properties *)

(** Closes a goal from [H : In x [a; b; ...]] when every listed row
    contradicts it by computation. *)
Ltac no_row H :=
  simpl in H;
  repeat (destruct H as [<- | H]; [discriminate |]);
  destruct H.

(** ** Preprocessing *)

Example to_datetime_2023_01_10 :
  to_datetime (Some "2023-01-10"%string) = Some (19367 * NS_PER_DAY).
Proof. reflexivity. Qed.

Example to_datetime_rejects_month_13 :
  to_datetime (Some "2023-13-10"%string) = None.
Proof. reflexivity. Qed.

Example Age_33 :
  Age {| Policy_ID := Some "P1"%string;
         Inception_Date := to_datetime (Some "2023-01-01"%string);
         Birth_Year := Some 1990; Gender := None; Product := None;
         Agent := None |} = Some 33.
Proof. reflexivity. Qed.

Lemma Length_of_Stay_parsed (c : ClaimRow) (a d : Z) :
  Admission_Date c = Some a ->
  Discharged_Date c = Some d ->
  Length_of_Stay c =
    (if (d - a) / NS_PER_DAY + 1 <? 0 then None
     else Some ((d - a) / NS_PER_DAY + 1)).
Proof.
  intros Ha Hd. unfold Length_of_Stay. rewrite Ha, Hd. reflexivity.
Qed.

Lemma Length_of_Stay_NaT (c : ClaimRow) :
  Admission_Date c = None \/ Discharged_Date c = None ->
  Length_of_Stay c = None.
Proof.
  unfold Length_of_Stay.
  intros [H | H]; rewrite H; [destruct (Discharged_Date c) |]; reflexivity.
Qed.

Lemma Length_of_Stay_nonneg (c : ClaimRow) (v : Z) :
  Length_of_Stay c = Some v -> 0 <= v.
Proof.
  destruct (Admission_Date c) as [a |] eqn:Ha.
  - destruct (Discharged_Date c) as [d |] eqn:Hd.
    + rewrite (Length_of_Stay_parsed c a d Ha Hd).
      destruct (Z.ltb_spec ((d - a) / NS_PER_DAY + 1) 0); intros [= <-]; lia.
    + rewrite Length_of_Stay_NaT by now right. discriminate.
  - rewrite Length_of_Stay_NaT by now left. discriminate.
Qed.

(** C4: with both dates parsed, [Length_of_Stay] is the whole number
    of days from admission to discharge plus one whenever that is not
    negative (for two calendar dates: the difference of the day numbers
    plus one); it is null when a date did not parse or when the value
    would be negative; it is never a negative number; and admission
    2023-01-01 with discharge 2023-01-10 gives 10. *)
Theorem Length_of_Stay_correct (c : ClaimRow) :
  (forall a d,
      Admission_Date c = Some a -> Discharged_Date c = Some d ->
      0 <= (d - a) / NS_PER_DAY + 1 ->
      Length_of_Stay c = Some ((d - a) / NS_PER_DAY + 1))
  /\ (forall da dd,
      Admission_Date c = Some (da * NS_PER_DAY) ->
      Discharged_Date c = Some (dd * NS_PER_DAY) ->
      0 <= dd - da + 1 ->
      Length_of_Stay c = Some (dd - da + 1))
  /\ (forall a d,
      Admission_Date c = Some a -> Discharged_Date c = Some d ->
      (d - a) / NS_PER_DAY + 1 < 0 ->
      Length_of_Stay c = None)
  /\ (Admission_Date c = None \/ Discharged_Date c = None ->
      Length_of_Stay c = None)
  /\ (forall v, Length_of_Stay c = Some v -> 0 <= v)
  /\ Length_of_Stay
       (mk_claim None None None
          (Some "2023-01-01"%string) (Some "2023-01-10"%string))
     = Some 10.
Proof.
  repeat split.
  - intros a d Ha Hd Hnn. rewrite (Length_of_Stay_parsed c a d Ha Hd).
    destruct (Z.ltb_spec ((d - a) / NS_PER_DAY + 1) 0); [lia | reflexivity].
  - intros da dd Ha Hd Hnn. rewrite (Length_of_Stay_parsed c _ _ Ha Hd).
    replace (dd * NS_PER_DAY - da * NS_PER_DAY)
      with ((dd - da) * NS_PER_DAY) by lia.
    rewrite Z.div_mul by (unfold NS_PER_DAY; lia).
    destruct (Z.ltb_spec (dd - da + 1) 0); [lia | reflexivity].
  - intros a d Ha Hd Hneg. rewrite (Length_of_Stay_parsed c a d Ha Hd).
    destruct (Z.ltb_spec ((d - a) / NS_PER_DAY + 1) 0); [reflexivity | lia].
  - apply Length_of_Stay_NaT.
  - apply Length_of_Stay_nonneg.
Qed.

Lemma Length_of_Stay_correct_witness :
  Length_of_Stay
    (mk_claim (Some "C1"%string) None None
       (Some "2023-01-01"%string) (Some "2023-01-10"%string)) = Some 10
  /\ Length_of_Stay
       (mk_claim (Some "C4"%string) None None
          (Some "2023-04-10"%string) (Some "2023-04-01"%string)) = None
  /\ Length_of_Stay
       (mk_claim (Some "C2"%string) None None
          (Some "not a date"%string) (Some "2023-02-03"%string)) = None.
Proof.
  split; [| split].
  - destruct (Length_of_Stay_correct
                (mk_claim (Some "C1"%string) None None
                   (Some "2023-01-01"%string) (Some "2023-01-10"%string)))
      as (_ & H & _).
    apply (H 19358 19367); [reflexivity | reflexivity | lia].
  - destruct (Length_of_Stay_correct
                (mk_claim (Some "C4"%string) None None
                   (Some "2023-04-10"%string) (Some "2023-04-01"%string)))
      as (_ & _ & H & _).
    apply (H (19457 * NS_PER_DAY) (19448 * NS_PER_DAY));
      [reflexivity | reflexivity | vm_compute; reflexivity].
  - destruct (Length_of_Stay_correct
                (mk_claim (Some "C2"%string) None None
                   (Some "not a date"%string) (Some "2023-02-03"%string)))
      as (_ & _ & _ & H & _).
    apply H. left. reflexivity.
Defined.

(** ** Rule flags *)

(** [master] has every column the flag formulas ask for, so
    [master.get] returns the column and its default is never used. *)
Lemma master_get_present (name : string) (default : Z)
  (col : MasterRow -> option Z) (r : MasterRow) :
  master_numeric_column name = Some col ->
  master_get name default r = col r.
Proof. unfold master_get. intros ->. reflexivity. Qed.

Lemma master_get_absent (name : string) (default : Z) (r : MasterRow) :
  master_numeric_column name = None ->
  master_get name default r = Some default.
Proof. unfold master_get. intros ->. reflexivity. Qed.

Lemma series_gt_true (x : option Z) (c : Z) :
  series_gt x c = true <-> exists a, x = Some a /\ c < a.
Proof.
  destruct x as [a |]; simpl.
  - rewrite Z.ltb_lt. split.
    + intros H. now exists a.
    + intros (b & [= ->] & H). exact H.
  - split; [discriminate | intros (b & [=] & _)].
Qed.

Lemma series_le_true (x : option Z) (c : Z) :
  series_le x c = true <-> exists a, x = Some a /\ a <= c.
Proof.
  destruct x as [a |]; simpl.
  - rewrite Z.leb_le. split.
    + intros H. now exists a.
    + intros (b & [= ->] & H). exact H.
  - split; [discriminate | intros (b & [=] & _)].
Qed.

Lemma series_eq_true (x : option Z) (c : Z) :
  series_eq x c = true <-> x = Some c.
Proof.
  destruct x as [a |]; simpl.
  - rewrite Z.eqb_eq. split; [intros -> | intros [= ->]]; reflexivity.
  - split; discriminate.
Qed.

(** C1 (as the code has it): each of the five predicates is a boolean
    for every row; a numeric operand is compared as it stands in the
    row, a null operand making its comparison false rather than being
    read as 0; [age_missing] holds exactly when Age is null; so a row
    with null Length_of_Stay has [shortstay_manydiag] false whatever
    its diagnosis count. *)
Theorem rule_flags_evaluate (r : MasterRow) :
  (flag_many_diagnoses r = true <->
     exists n, Num_Diagnoses r = Some n /\ 3 < n)
  /\ (flag_shortstay_manydiag r = true <->
     exists s n, master_Length_of_Stay r = Some s
                 /\ Num_Diagnoses r = Some n /\ s <= 2 /\ 2 < n)
  /\ (flag_longstay_onediag r = true <->
     exists s, master_Length_of_Stay r = Some s
               /\ Num_Diagnoses r = Some 1 /\ 7 < s)
  /\ (flag_manydoctors r = true <->
     exists n, Num_Doctors r = Some n /\ 2 < n)
  /\ (flag_age_missing r = true <-> master_Age r = None)
  /\ (forall rule, flag rule r = true \/ flag rule r = false)
  /\ (master_Length_of_Stay r = None ->
      flag_shortstay_manydiag r = false).
Proof.
  unfold flag_many_diagnoses, flag_shortstay_manydiag,
    flag_longstay_onediag, flag_manydoctors, flag_age_missing.
  rewrite !(master_get_present "Num_Diagnoses" 0 Num_Diagnoses r eq_refl).
  rewrite !(master_get_present "Length_of_Stay" 0 master_Length_of_Stay r
              eq_refl).
  rewrite !(master_get_present "Num_Doctors" 0 Num_Doctors r eq_refl).
  split; [apply series_gt_true |].
  split.
  { rewrite andb_true_iff, series_le_true, series_gt_true. split.
    - intros ((s & Hs & Hle) & (n & Hn & Hlt)). now exists s, n.
    - intros (s & n & Hs & Hn & Hle & Hlt). split; eauto. }
  split.
  { rewrite andb_true_iff, series_gt_true, series_eq_true. split.
    - intros ((s & Hs & Hlt) & Hn). now exists s.
    - intros (s & Hs & Hn & Hlt). split; eauto. }
  split; [apply series_gt_true |].
  split.
  { destruct (master_Age r); simpl; split; congruence. }
  split.
  { intros rule. destruct (flag rule r); auto. }
  intros ->. reflexivity.
Qed.

Lemma ex_master_rows :
  ex_master = [ex_row_C1; ex_row_C2; ex_row_C3; ex_row_C4].
Proof. vm_compute. reflexivity. Qed.

Lemma rule_flags_evaluate_witness :
  master_Length_of_Stay ex_row_C2 = None
  /\ flag_shortstay_manydiag ex_row_C2 = false.
Proof.
  split; [reflexivity |].
  apply (rule_flags_evaluate ex_row_C2). reflexivity.
Defined.

(** C1 refuted as stated: the second row of the example master table
    has a null Length_of_Stay and four diagnoses, and its
    [shortstay_manydiag] flag is false, where reading the null as 0
    would have made it true. *)
Lemma rule_flags_zero_default_fails :
  In ex_row_C2 ex_master
  /\ master_Length_of_Stay ex_row_C2 = None
  /\ Num_Diagnoses ex_row_C2 = Some 4
  /\ flag_shortstay_manydiag ex_row_C2 = false
  /\ series_le (Some 0) 2 && series_gt (Num_Diagnoses ex_row_C2) 2 = true.
Proof.
  split; [rewrite ex_master_rows; simpl; auto |]. repeat split.
Qed.

(** C9: a comparison with a null operand is false, so a null
    Length_of_Stay switches off [shortstay_manydiag] and
    [longstay_onediag], a null Num_Diagnoses switches off
    [many_diagnoses], [shortstay_manydiag] and [longstay_onediag], and
    a null Num_Doctors switches off [manydoctors]. *)
Theorem null_operand_flags_false (r : MasterRow) :
  (master_Length_of_Stay r = None ->
     flag_shortstay_manydiag r = false /\ flag_longstay_onediag r = false)
  /\ (Num_Diagnoses r = None ->
     flag_many_diagnoses r = false /\ flag_shortstay_manydiag r = false
     /\ flag_longstay_onediag r = false)
  /\ (Num_Doctors r = None -> flag_manydoctors r = false).
Proof.
  unfold flag_many_diagnoses, flag_shortstay_manydiag,
    flag_longstay_onediag, flag_manydoctors.
  rewrite !(master_get_present "Num_Diagnoses" 0 Num_Diagnoses r eq_refl).
  rewrite !(master_get_present "Length_of_Stay" 0 master_Length_of_Stay r
              eq_refl).
  rewrite !(master_get_present "Num_Doctors" 0 Num_Doctors r eq_refl).
  split; [| split].
  - intros ->. split; reflexivity.
  - intros ->. simpl. rewrite !andb_false_r. repeat split.
  - intros ->. reflexivity.
Qed.

Lemma null_operand_flags_false_witness :
  (flag_shortstay_manydiag ex_row_C2 = false
   /\ flag_longstay_onediag ex_row_C2 = false)
  /\ (flag_many_diagnoses ex_row_C4 = false
      /\ flag_shortstay_manydiag ex_row_C4 = false
      /\ flag_longstay_onediag ex_row_C4 = false)
  /\ flag_manydoctors ex_row_C4 = false.
Proof.
  split; [| split].
  - exact (proj1 (null_operand_flags_false ex_row_C2) eq_refl).
  - exact (proj1 (proj2 (null_operand_flags_false ex_row_C4)) eq_refl).
  - exact (proj2 (proj2 (null_operand_flags_false ex_row_C4)) eq_refl).
Defined.

(** ** Specialty normalisation *)

Section SpecialtyFacts.

Local Open Scope N_scope.

Lemma str_eqb_eq (a b : str) : str_eqb a b = true <-> a = b.
Proof.
  revert b. induction a as [| x a IH]; intros [| y b]; simpl;
    try (split; (reflexivity || discriminate)).
  rewrite andb_true_iff, N.eqb_eq, IH.
  split; [intros [-> ->] | intros [= -> ->]]; auto.
Qed.

Lemma ascii_enumerated (c : N) :
  c < 128 -> In c (map N.of_nat (seq 0 128)).
Proof.
  intros H. rewrite <- (N2Nat.id c). apply in_map, in_seq. lia.
Qed.

Lemma title_char_ascii (b : bool) (c : N) :
  c < 128 ->
  exists x, title_char b c = [x] /\ x < 128
            /\ is_cased x = is_cased c /\ is_space x = is_space c
            /\ title_char b x = [x].
Proof.
  intros H. apply ascii_enumerated in H.
  assert (Hall : forallb title_char_ok (map N.of_nat (seq 0 128)) = true)
    by (vm_compute; reflexivity).
  rewrite forallb_forall in Hall. specialize (Hall c H).
  unfold title_char_ok in Hall. rewrite forallb_forall in Hall.
  specialize (Hall b).
  assert (Hb : In b [true; false]) by (destruct b; simpl; auto).
  specialize (Hall Hb).
  destruct (title_char b c) as [| x [| y l]]; try discriminate.
  rewrite !andb_true_iff in Hall.
  destruct Hall as [[[Hlt Hc] Hs] He].
  exists x. repeat split.
  - now apply N.ltb_lt.
  - now apply Bool.eqb_prop.
  - now apply Bool.eqb_prop.
  - now apply str_eqb_eq.
Qed.

Lemma title_from_cons (b : bool) (c : N) (t : str) :
  title_from b (c :: t) = (title_char b c ++ title_from (is_cased c) t)%list.
Proof. reflexivity. Qed.

Lemma title_from_idempotent (s : str) :
  ascii_str s ->
  forall b, title_from b (title_from b s) = title_from b s.
Proof.
  induction 1 as [| c t Hc Ht IH]; intros b; [reflexivity |].
  rewrite title_from_cons.
  destruct (title_char_ascii b c Hc) as (x & -> & _ & Hcased & _ & Hx).
  simpl app. rewrite title_from_cons, Hx, Hcased, IH. reflexivity.
Qed.

Lemma title_from_ascii (s : str) :
  ascii_str s -> forall b, ascii_str (title_from b s).
Proof.
  induction 1 as [| c t Hc Ht IH]; intros b; [constructor |].
  rewrite title_from_cons.
  destruct (title_char_ascii b c Hc) as (x & -> & Hlt & _).
  constructor; [exact Hlt | apply IH].
Qed.

Lemma lstrip_length (s : str) :
  (List.length (lstrip s) <= List.length s)%nat.
Proof.
  induction s as [| c t IH]; simpl; [lia |].
  destruct (is_space c); simpl; lia.
Qed.

Lemma lstrip_fixed_head (c : N) (t : str) :
  lstrip (c :: t) = c :: t -> is_space c = false.
Proof.
  simpl. destruct (is_space c); [| reflexivity].
  intros H. pose proof (lstrip_length t) as Hl.
  rewrite H in Hl. simpl in Hl. lia.
Qed.

Lemma lstrip_idempotent (s : str) : lstrip (lstrip s) = lstrip s.
Proof.
  induction s as [| c t IH]; [reflexivity |].
  simpl. destruct (is_space c) eqn:E; [exact IH |].
  simpl. rewrite E. reflexivity.
Qed.

Lemma rstrip_idempotent (s : str) : rstrip (rstrip s) = rstrip s.
Proof.
  induction s as [| c t IH]; [reflexivity |].
  simpl. destruct (rstrip t) as [| h t'] eqn:E.
  - destruct (is_space c) eqn:Ec; simpl; [| rewrite Ec]; reflexivity.
  - change (rstrip (c :: h :: t'))
      with (match rstrip (h :: t') with
            | [] => if is_space c then [] else [c]
            | u => c :: u
            end).
    rewrite IH. reflexivity.
Qed.

Lemma rstrip_keeps_head (c : N) (t : str) :
  is_space c = false -> exists u, rstrip (c :: t) = c :: u.
Proof.
  intros Hc. simpl. destruct (rstrip t) as [| h t'].
  - rewrite Hc. now exists [].
  - now exists (h :: t').
Qed.

Lemma strip_lstrip_fixed (s : str) : lstrip (strip s) = strip s.
Proof.
  unfold strip. pose proof (lstrip_idempotent s) as Hi.
  destruct (lstrip s) as [| c t]; [reflexivity |].
  apply lstrip_fixed_head in Hi.
  destruct (rstrip_keeps_head c t Hi) as (u & ->).
  simpl. rewrite Hi. reflexivity.
Qed.

Lemma strip_rstrip_fixed (s : str) : rstrip (strip s) = strip s.
Proof. apply rstrip_idempotent. Qed.

Lemma lstrip_ascii (s : str) : ascii_str s -> ascii_str (lstrip s).
Proof.
  induction 1 as [| c t Hc Ht IH]; simpl; [constructor |].
  destruct (is_space c); [exact IH | now constructor].
Qed.

Lemma rstrip_ascii (s : str) : ascii_str s -> ascii_str (rstrip s).
Proof.
  induction 1 as [| c t Hc Ht IH]; simpl; [constructor |].
  destruct (rstrip t) as [| h t'].
  - destruct (is_space c); constructor; [exact Hc | constructor].
  - now constructor.
Qed.

Lemma strip_ascii (s : str) : ascii_str s -> ascii_str (strip s).
Proof. intros H. apply rstrip_ascii, lstrip_ascii, H. Qed.

Lemma title_from_nil (s : str) (b : bool) :
  ascii_str s -> title_from b s = [] -> s = [].
Proof.
  intros Hs. destruct Hs as [| c t Hc Ht]; [reflexivity |].
  rewrite title_from_cons.
  destruct (title_char_ascii b c Hc) as (x & -> & _). discriminate.
Qed.

Lemma title_from_lstrip_fixed (s : str) (b : bool) :
  ascii_str s -> lstrip s = s ->
  lstrip (title_from b s) = title_from b s.
Proof.
  intros Hs Hfix. destruct Hs as [| c t Hc Ht]; [reflexivity |].
  apply lstrip_fixed_head in Hfix.
  rewrite title_from_cons.
  destruct (title_char_ascii b c Hc) as (x & -> & _ & _ & Hsp & _).
  simpl. rewrite Hsp, Hfix. reflexivity.
Qed.

Lemma rstrip_fixed_tail (c : N) (t : str) :
  rstrip (c :: t) = c :: t ->
  rstrip t = t /\ (t = [] -> is_space c = false).
Proof.
  simpl. destruct (rstrip t) as [| h t'] eqn:E.
  - destruct (is_space c); [discriminate |].
    intros [= <-]. auto.
  - intros [= <-]. split; [reflexivity | discriminate].
Qed.

Lemma title_from_rstrip_fixed (s : str) :
  ascii_str s -> forall b, rstrip s = s ->
  rstrip (title_from b s) = title_from b s.
Proof.
  induction 1 as [| c t Hc Ht IH]; intros b Hfix; [reflexivity |].
  apply rstrip_fixed_tail in Hfix. destruct Hfix as [Ht' Hlast].
  rewrite title_from_cons.
  destruct (title_char_ascii b c Hc) as (x & -> & _ & _ & Hsp & _).
  simpl. rewrite (IH (is_cased c) Ht').
  destruct (title_from (is_cased c) t) eqn:E; [| reflexivity].
  apply title_from_nil in E; [| exact Ht].
  rewrite Hsp, (Hlast E). reflexivity.
Qed.

Lemma strip_title_strip (s : str) :
  ascii_str s -> strip (title (strip s)) = title (strip s).
Proof.
  intros Hs. unfold strip at 1, title.
  rewrite title_from_lstrip_fixed;
    [| apply strip_ascii, Hs | apply strip_lstrip_fixed].
  apply title_from_rstrip_fixed;
    [apply strip_ascii, Hs | apply strip_rstrip_fixed].
Qed.

Lemma replace_synonyms_cases (y : str) :
  replace specialty_synonyms y = of_string "Paediatrician"
  \/ replace specialty_synonyms y = y.
Proof.
  unfold specialty_synonyms. simpl.
  repeat match goal with
         | |- context [str_eqb y ?k] =>
             destruct (str_eqb y k); [now left |]
         end.
  now right.
Qed.

End SpecialtyFacts.

(** C5 refuted as stated, for strings held as Python objects, where
    [str.title] is Python's own: "A", capital I with dot above, "b".
    The first pass lowercases U+0130 to "i" followed by the combining
    dot U+0307; in the second pass the "b" follows that uncased dot
    and is capitalised. *)
Lemma Specialty_not_idempotent :
  Specialty (Some [65; 304; 98]%N) = Some [65; 105; 775; 98]%N
  /\ Specialty (Specialty (Some [65; 304; 98]%N))
     = Some [65; 105; 775; 66]%N
  /\ Specialty (Specialty (Some [65; 304; 98]%N))
     <> Specialty (Some [65; 304; 98]%N).
Proof.
  split; [reflexivity |]. split; [reflexivity |].
  vm_compute. discriminate.
Qed.

(** ** Keys and group-by *)

Lemma key_eqb_eq (a b : option string) : key_eqb a b = true <-> a = b.
Proof.
  destruct a as [x |], b as [y |]; simpl;
    try (split; (reflexivity || discriminate)).
  rewrite String.eqb_eq. split; [intros -> | intros [= ->]]; reflexivity.
Qed.

Lemma key_eqb_refl (a : option string) : key_eqb a a = true.
Proof. now apply key_eqb_eq. Qed.

Lemma string_compare_refl (a : string) : String.compare a a = Eq.
Proof.
  pose proof (String.compare_antisym a a) as H.
  destruct (String.compare a a); simpl in H; congruence.
Qed.

Lemma string_compare_trans (a b c : string) :
  String.compare a b = Lt -> String.compare b c = Lt ->
  String.compare a c = Lt.
Proof.
  revert b c.
  induction a as [| x a IH]; intros [| y b] [| z c]; simpl;
    try discriminate; auto.
  unfold Ascii.compare.
  destruct (N.compare_spec (N_of_ascii x) (N_of_ascii y)) as [E1 | L1 | G1];
    try discriminate;
    destruct (N.compare_spec (N_of_ascii y) (N_of_ascii z))
      as [E2 | L2 | G2];
    try discriminate; intros H1 H2.
  - rewrite E1, E2, N.compare_refl. eauto.
  - rewrite E1. now apply N.compare_lt_iff in L2 as ->.
  - rewrite <- E2. now apply N.compare_lt_iff in L1 as ->.
  - assert (L : (N_of_ascii x < N_of_ascii z)%N) by lia.
    now apply N.compare_lt_iff in L as ->.
Qed.

Lemma In_insert_key (x k : string) (l : list string) :
  In x (insert_key k l) <-> x = k \/ In x l.
Proof.
  induction l as [| h t IH]; simpl.
  - intuition.
  - destruct (String.compare k h) eqn:E; simpl.
    + apply String.compare_eq_iff in E. subst h. intuition.
    + intuition.
    + rewrite IH. intuition.
Qed.

Lemma In_group_keys {A : Type} (key : A -> option string)
  (rows : list A) (k : string) :
  In k (group_keys key rows) <-> exists a, In a rows /\ key a = Some k.
Proof.
  induction rows as [| a t IH]; simpl.
  - split; [intros [] | intros (a & [] & _)].
  - destruct (key a) as [k' |] eqn:E.
    + rewrite In_insert_key, IH. split.
      * intros [-> | (b & Hb & Hk)]; eauto.
      * intros (b & [<- | Hb] & Hk); [left; congruence | eauto].
    + rewrite IH. split.
      * intros (b & Hb & Hk); eauto.
      * intros (b & [<- | Hb] & Hk); [congruence | eauto].
Qed.

Lemma insert_key_ascending (k : string) (l : list string) :
  keys_ascending l -> keys_ascending (insert_key k l).
Proof.
  unfold keys_ascending.
  induction 1 as [| h t Ht IH Hh]; simpl.
  - repeat constructor.
  - destruct (String.compare k h) eqn:E.
    + now constructor.
    + constructor; [now constructor |].
      constructor; [exact E |].
      rewrite Forall_forall in *. intros x Hx.
      eapply string_compare_trans; eauto.
    + constructor; [exact IH |].
      rewrite Forall_forall in *. intros x Hx.
      apply In_insert_key in Hx. destruct Hx as [-> | Hx]; [| auto].
      rewrite String.compare_antisym, E. reflexivity.
Qed.

Lemma group_keys_ascending {A : Type} (key : A -> option string)
  (rows : list A) : keys_ascending (group_keys key rows).
Proof.
  induction rows as [| a t IH]; simpl; [constructor |].
  destruct (key a); [now apply insert_key_ascending | exact IH].
Qed.

Lemma keys_ascending_NoDup (l : list string) : keys_ascending l -> NoDup l.
Proof.
  induction 1 as [| h t Ht IH Hh]; constructor; [| exact IH].
  intros Hin. rewrite Forall_forall in Hh. specialize (Hh h Hin).
  rewrite string_compare_refl in Hh. discriminate.
Qed.

Lemma group_keys_NoDup {A : Type} (key : A -> option string)
  (rows : list A) : NoDup (group_keys key rows).
Proof. apply keys_ascending_NoDup, group_keys_ascending. Qed.

Lemma groupby_count_keys {A B : Type} (key : A -> option string)
  (col : A -> option B) (rows : list A) :
  map count_key (groupby_count key col rows)
  = map Some (group_keys key rows).
Proof.
  unfold groupby_count. rewrite map_map. reflexivity.
Qed.

Lemma groupby_count_unique {A B : Type} (key : A -> option string)
  (col : A -> option B) (rows : list A) :
  NoDup (map count_key (groupby_count key col rows)).
Proof.
  rewrite groupby_count_keys.
  apply Finite.Injective_map_NoDup; [| apply group_keys_NoDup].
  intros x y [= ->]. reflexivity.
Qed.

(** ** Left merge *)

Lemma joined_exists {R : Type} (k : option string)
  (kr : R -> option string) (right : list R) :
  exists o, joined k kr right o.
Proof.
  induction right as [| r t (o & Ho)].
  - exists None. intros r [].
  - destruct (key_eqb k (kr r)) eqn:E.
    + exists (Some r). simpl. auto.
    + destruct o as [r' |].
      * exists (Some r'). destruct Ho. simpl. auto.
      * exists None. intros r' [<- | Hr']; auto.
Qed.

Lemma In_merge_left {L R : Type} (kl : L -> option string)
  (kr : R -> option string) (left : list L) (right : list R)
  (l : L) (o : option R) :
  In (l, o) (merge_left kl kr left right)
  <-> In l left /\ joined (kl l) kr right o.
Proof.
  unfold merge_left. rewrite in_flat_map. split.
  - intros (l0 & Hl0 & Hin).
    destruct (filter (fun r => key_eqb (kl l0) (kr r)) right)
      as [| m ms] eqn:E.
    + destruct Hin as [[= <- <-] | []]. split; [exact Hl0 |].
      intros r Hr. destruct (key_eqb (kl l0) (kr r)) eqn:Ek; auto.
      assert (Hf : In r (filter (fun r => key_eqb (kl l0) (kr r)) right))
        by (apply filter_In; auto).
      rewrite E in Hf. destruct Hf.
    + apply in_map_iff in Hin. destruct Hin as (r & [= <- <-] & Hr).
      rewrite <- E in Hr. apply filter_In in Hr.
      split; [exact Hl0 | exact Hr].
  - intros [Hl Hj]. exists l. split; [exact Hl |].
    destruct o as [r |]; simpl in Hj.
    + assert (Hf : In r (filter (fun r => key_eqb (kl l) (kr r)) right))
        by (apply filter_In; exact Hj).
      destruct (filter (fun r => key_eqb (kl l) (kr r)) right)
        as [| m ms]; [destruct Hf |].
      apply in_map_iff. eauto.
    + destruct (filter (fun r => key_eqb (kl l) (kr r)) right)
        as [| m ms] eqn:E; [now left |].
      assert (Hf : In m (filter (fun r => key_eqb (kl l) (kr r)) right))
        by (rewrite E; now left).
      apply filter_In in Hf. destruct Hf as [Hm Hk].
      rewrite (Hj m Hm) in Hk. discriminate.
Qed.

Lemma unique_key_filter {R : Type} (kr : R -> option string)
  (right : list R) (k : option string) :
  NoDup (map kr right) ->
  (List.length (filter (fun r => key_eqb k (kr r)) right) <= 1)%nat.
Proof.
  induction right as [| r t IH]; simpl; intros Hnd; [lia |].
  inversion Hnd as [| ? ? Hnotin Hnd']; subst.
  destruct (key_eqb k (kr r)) eqn:E; [| auto].
  apply key_eqb_eq in E. subst k.
  assert (Hnil : filter (fun r0 => key_eqb (kr r) (kr r0)) t = []).
  { destruct (filter (fun r0 => key_eqb (kr r) (kr r0)) t)
      as [| m ms] eqn:Ef; [reflexivity |].
    exfalso. apply Hnotin.
    assert (Hm : In m (filter (fun r0 => key_eqb (kr r) (kr r0)) t))
      by (rewrite Ef; now left).
    apply filter_In in Hm. destruct Hm as [Hm Hk].
    apply key_eqb_eq in Hk. rewrite Hk. now apply in_map. }
  rewrite Hnil. simpl. lia.
Qed.

Lemma merge_left_length {L R : Type} (kl : L -> option string)
  (kr : R -> option string) (left : list L) (right : list R) :
  NoDup (map kr right) ->
  List.length (merge_left kl kr left right) = List.length left.
Proof.
  intros Hnd. unfold merge_left.
  induction left as [| l t IH]; [reflexivity |].
  cbn [flat_map]. rewrite length_app, IH.
  pose proof (unique_key_filter kr right (kl l) Hnd) as Hle.
  destruct (filter (fun r => key_eqb (kl l) (kr r)) right) as [| m [| m' ms]];
    cbn [List.length map] in *; lia.
Qed.

Lemma joined_count_some {A B : Type} (key : A -> option string)
  (col : A -> option B) (rows : list A) (k : option string)
  (row : CountRow) :
  joined k count_key (groupby_count key col rows) (Some row) ->
  k = Some (cnt_Claim_ID row)
  /\ (exists a, In a rows /\ key a = k)
  /\ cnt_value row
     = Z.of_nat
         (List.length
            (filter (fun a => notna (col a))
               (filter (fun a => key_eqb (key a) k) rows))).
Proof.
  intros [Hin Hk]. apply key_eqb_eq in Hk. unfold count_key in Hk.
  unfold groupby_count in Hin. apply in_map_iff in Hin.
  destruct Hin as (k' & <- & Hk'). simpl in *. subst k.
  split; [reflexivity |]. split; [| reflexivity].
  now apply In_group_keys.
Qed.

Lemma joined_count_none {A B : Type} (key : A -> option string)
  (col : A -> option B) (rows : list A) (k : string) :
  joined (Some k) count_key (groupby_count key col rows) None ->
  forall a, In a rows -> key a <> Some k.
Proof.
  intros Hj a Ha Hk.
  assert (Hin : In k (group_keys key rows)) by (apply In_group_keys; eauto).
  specialize (Hj {| cnt_Claim_ID := k;
                    cnt_value :=
                      Z.of_nat
                        (List.length
                           (filter (fun a => notna (col a))
                              (filter (in_group key k) rows))) |}).
  unfold groupby_count in Hj. rewrite in_map_iff in Hj.
  assert (E : key_eqb (Some k) (Some k) = false) by (apply Hj; eauto).
  rewrite key_eqb_refl in E. discriminate.
Qed.

Lemma merge_left_fst {L R : Type} (kl : L -> option string)
  (kr : R -> option string) (left : list L) (right : list R) :
  NoDup (map kr right) ->
  map fst (merge_left kl kr left right) = left.
Proof.
  intros Hnd. unfold merge_left.
  induction left as [| l t IH]; [reflexivity |].
  cbn [flat_map]. rewrite map_app, IH.
  pose proof (unique_key_filter kr right (kl l) Hnd) as Hle.
  destruct (filter (fun r => key_eqb (kl l) (kr r)) right) as [| m [| m' ms]];
    cbn [List.length] in Hle; [reflexivity | reflexivity | lia].
Qed.

(** ** The master table *)

Section Master.

Variable claim_basic : list ClaimRow.
Variable claim_diagnosis : list DiagnosisRow.
Variable claim_doctor : list ClaimDoctorRow.
Variable policy_info : list PolicyRow.
Variable hospital_info : list HospitalRow.

Lemma In_master (r : MasterRow) :
  In r (master claim_basic claim_diagnosis claim_doctor policy_info
          hospital_info)
  <-> exists c dc dr p h,
    r = {| claim := c;
           Num_Diagnoses := option_map cnt_value dc;
           Num_Doctors := option_map cnt_value dr;
           policy := p; hospital := h |}
    /\ In c claim_basic
    /\ joined (Claim_ID c) count_key (diagnosis_count claim_diagnosis) dc
    /\ joined (Claim_ID c) count_key (doctor_count claim_doctor) dr
    /\ joined (c_Policy_ID c) Policy_ID policy_info p
    /\ joined (c_Hospital_ID c) Hospital_ID hospital_info h.
Proof.
  unfold master. rewrite in_map_iff. split.
  - intros ([[[[c dc] dr] p] h] & <- & Hin).
    apply In_merge_left in Hin. destruct Hin as [Hin Hh].
    apply In_merge_left in Hin. destruct Hin as [Hin Hp].
    apply In_merge_left in Hin. destruct Hin as [Hin Hdr].
    apply In_merge_left in Hin. destruct Hin as [Hin Hdc].
    exists c, dc, dr, p, h. simpl in *. repeat split; assumption.
  - intros (c & dc & dr & p & h & -> & Hc & Hdc & Hdr & Hp & Hh).
    exists ((((c, dc), dr), p), h). split; [reflexivity |].
    repeat (apply In_merge_left; split); assumption.
Qed.

(** C3: when [policy_info] has no two rows with the same Policy ID
    and [hospital_info] no two rows with the same Hospital ID, the
    rows of [master] are the rows of [claim_basic], one for one and in
    the same order, each extended with its joined columns; so [master]
    has exactly as many rows as [claim_basic], whether or not a claim
    has a matching policy or hospital. *)
Theorem master_row_count :
  NoDup (map Policy_ID policy_info) ->
  NoDup (map Hospital_ID hospital_info) ->
  map claim
    (master claim_basic claim_diagnosis claim_doctor policy_info
       hospital_info)
  = claim_basic
  /\ List.length
       (master claim_basic claim_diagnosis claim_doctor policy_info
          hospital_info)
     = List.length claim_basic.
Proof.
  intros Hp Hh.
  assert (Hrows : map claim
                    (master claim_basic claim_diagnosis claim_doctor
                       policy_info hospital_info)
                  = claim_basic).
  { unfold master. rewrite map_map.
    rewrite (map_ext _ (fun x => fst (fst (fst (fst x)))))
      by (intros [[[[c dc] dr] p] h]; reflexivity).
    rewrite <- (map_map fst (fun x => fst (fst (fst x)))).
    rewrite (merge_left_fst _ Hospital_ID _ hospital_info Hh).
    rewrite <- (map_map fst (fun x => fst (fst x))).
    rewrite (merge_left_fst _ Policy_ID _ policy_info Hp).
    rewrite <- (map_map fst fst).
    rewrite (merge_left_fst _ count_key _ _
               (groupby_count_unique cd_Claim_ID Doctor_ID claim_doctor)).
    apply (merge_left_fst _ count_key _ _
             (groupby_count_unique d_Claim_ID Diagnosis claim_diagnosis)). }
  split; [exact Hrows |].
  rewrite <- Hrows at 2. now rewrite length_map.
Qed.

(** C2 (as the code has it): a claim with no row in
    [claim_diagnosis] (in [claim_doctor]) has a null Num_Diagnoses
    (Num_Doctors) in [master], and a null count on a row with a Claim
    ID means the claim has no row there; a count that is present is
    the number of the claim's rows whose Diagnosis (Doctor ID) is not
    null, so it is never negative, and the claim then has a row
    there. *)
Theorem master_counts (r : MasterRow) :
  In r (master claim_basic claim_diagnosis claim_doctor policy_info
          hospital_info) ->
  ((forall d, In d claim_diagnosis -> d_Claim_ID d <> master_Claim_ID r)
   -> Num_Diagnoses r = None)
  /\ ((forall a, In a claim_doctor -> cd_Claim_ID a <> master_Claim_ID r)
      -> Num_Doctors r = None)
  /\ (Num_Diagnoses r = None ->
      forall k, master_Claim_ID r = Some k ->
      forall d, In d claim_diagnosis -> d_Claim_ID d <> Some k)
  /\ (Num_Doctors r = None ->
      forall k, master_Claim_ID r = Some k ->
      forall a, In a claim_doctor -> cd_Claim_ID a <> Some k)
  /\ (forall n, Num_Diagnoses r = Some n ->
        0 <= n
        /\ (exists d, In d claim_diagnosis
                      /\ d_Claim_ID d = master_Claim_ID r)
        /\ n = Z.of_nat
                 (List.length
                    (filter (fun d => notna (Diagnosis d))
                       (filter
                          (fun d =>
                             key_eqb (d_Claim_ID d) (master_Claim_ID r))
                          claim_diagnosis))))
  /\ (forall n, Num_Doctors r = Some n ->
        0 <= n
        /\ (exists a, In a claim_doctor
                      /\ cd_Claim_ID a = master_Claim_ID r)
        /\ n = Z.of_nat
                 (List.length
                    (filter (fun a => notna (Doctor_ID a))
                       (filter
                          (fun a =>
                             key_eqb (cd_Claim_ID a) (master_Claim_ID r))
                          claim_doctor)))).
Proof.
  intros Hr. apply In_master in Hr.
  destruct Hr as (c & dc & dr & p & h & -> & Hc & Hdc & Hdr & Hp & Hh).
  unfold master_Claim_ID. simpl.
  split; [| split; [| split; [| split; [| split]]]].
  - intros Hno. destruct dc as [row |]; [| reflexivity].
    apply joined_count_some in Hdc.
    destruct Hdc as (_ & (d & Hd & Hk) & _).
    exfalso. exact (Hno d Hd Hk).
  - intros Hno. destruct dr as [row |]; [| reflexivity].
    apply joined_count_some in Hdr.
    destruct Hdr as (_ & (a & Ha & Hk) & _).
    exfalso. exact (Hno a Ha Hk).
  - intros Hnone k Hk. destruct dc as [row |]; [discriminate |].
    rewrite Hk in Hdc. exact (joined_count_none _ _ _ _ Hdc).
  - intros Hnone k Hk. destruct dr as [row |]; [discriminate |].
    rewrite Hk in Hdr. exact (joined_count_none _ _ _ _ Hdr).
  - intros n Hn. destruct dc as [row |]; [| discriminate].
    injection Hn as <-. apply joined_count_some in Hdc.
    destruct Hdc as (_ & Hex & ->). split; [lia |]. split; [exact Hex |].
    reflexivity.
  - intros n Hn. destruct dr as [row |]; [| discriminate].
    injection Hn as <-. apply joined_count_some in Hdr.
    destruct Hdr as (_ & Hex & ->). split; [lia |]. split; [exact Hex |].
    reflexivity.
Qed.

(** C6: a claim whose Policy ID matches no row of [policy_info] is
    still in [master]; every master row of that claim has null
    policy columns, Age among them, and its [age_missing] flag is
    true. *)
Theorem unmatched_policy_kept (c : ClaimRow) :
  In c claim_basic ->
  (forall p, In p policy_info -> Policy_ID p <> c_Policy_ID c) ->
  (exists r,
      In r (master claim_basic claim_diagnosis claim_doctor policy_info
              hospital_info)
      /\ claim r = c)
  /\ (forall r,
        In r (master claim_basic claim_diagnosis claim_doctor policy_info
                hospital_info) ->
        claim r = c ->
        policy r = None
        /\ master_Age r = None /\ master_Agent r = None
        /\ master_Birth_Year r = None /\ master_Inception_Date r = None
        /\ master_Gender r = None /\ master_Product r = None
        /\ flag_age_missing r = true).
Proof.
  intros Hc Hno. split.
  - destruct (joined_exists (Claim_ID c) count_key
                (diagnosis_count claim_diagnosis)) as (dc & Hdc).
    destruct (joined_exists (Claim_ID c) count_key
                (doctor_count claim_doctor)) as (dr & Hdr).
    destruct (joined_exists (c_Policy_ID c) Policy_ID policy_info)
      as (p & Hp).
    destruct (joined_exists (c_Hospital_ID c) Hospital_ID hospital_info)
      as (h & Hh).
    eexists. split; [apply In_master; exists c, dc, dr, p, h |].
    + repeat split; eassumption.
    + reflexivity.
  - intros r Hr Hrc. apply In_master in Hr.
    destruct Hr as (c' & dc & dr & p & h & -> & _ & _ & _ & Hp & _).
    simpl in Hrc. subst c'.
    assert (E : p = None).
    { destruct p as [p |]; [| reflexivity].
      destruct Hp as [Hin Hk]. apply key_eqb_eq in Hk.
      exfalso. exact (Hno p Hin (eq_sym Hk)). }
    subst p. repeat split.
Qed.

End Master.

Lemma master_row_count_witness :
  map claim ex_master = ex_claim_basic
  /\ List.length ex_master = List.length ex_claim_basic.
Proof.
  apply (master_row_count ex_claim_basic ex_claim_diagnosis ex_claim_doctor
           ex_policy_info ex_hospital_info).
  - repeat constructor; simpl; intuition discriminate.
  - repeat constructor; simpl; intuition discriminate.
Defined.

(** Without the key hypothesis the count can grow: listing policy P1
    twice gives claims C1 and C4 two master rows each. *)
Example duplicate_policy_fans_out :
  List.length
    (master ex_claim_basic ex_claim_diagnosis ex_claim_doctor
       (ex_policy_P1 :: ex_policy_info) ex_hospital_info)
  = 6%nat.
Proof. vm_compute. reflexivity. Qed.

Example four_diagnoses_flagged :
  Num_Diagnoses ex_row_C2 = Some 4
  /\ flag_many_diagnoses ex_row_C2 = true
  /\ flag_many_diagnoses ex_row_C1 = false.
Proof. repeat split. Qed.

Lemma master_counts_witness :
  Num_Diagnoses ex_row_C3 = None /\ Num_Doctors ex_row_C4 = None.
Proof.
  split.
  - apply (master_counts ex_claim_basic ex_claim_diagnosis ex_claim_doctor
             ex_policy_info ex_hospital_info ex_row_C3).
    + vm_compute. auto.
    + intros d Hd. no_row Hd.
  - apply (master_counts ex_claim_basic ex_claim_diagnosis ex_claim_doctor
             ex_policy_info ex_hospital_info ex_row_C4).
    + vm_compute. auto 6.
    + intros d Hd. no_row Hd.
Defined.

(** C2 refuted as stated: claim C3 of the example has no diagnosis row
    and claim C4 no doctor row; their master rows carry a null count,
    not 0. *)
Lemma master_counts_not_zero :
  In ex_row_C3 ex_master
  /\ (forall d, In d ex_claim_diagnosis ->
                d_Claim_ID d <> master_Claim_ID ex_row_C3)
  /\ Num_Diagnoses ex_row_C3 <> Some 0
  /\ In ex_row_C4 ex_master
  /\ (forall a, In a ex_claim_doctor ->
                cd_Claim_ID a <> master_Claim_ID ex_row_C4)
  /\ Num_Doctors ex_row_C4 <> Some 0.
Proof.
  rewrite ex_master_rows. repeat split; simpl; auto; try discriminate.
  - intros d Hd. no_row Hd.
  - intros a Ha. no_row Ha.
Qed.

Lemma unmatched_policy_kept_witness :
  (exists r, In r ex_master /\ claim r = ex_claim_C3)
  /\ (forall r, In r ex_master -> claim r = ex_claim_C3 ->
        policy r = None
        /\ master_Age r = None /\ master_Agent r = None
        /\ master_Birth_Year r = None /\ master_Inception_Date r = None
        /\ master_Gender r = None /\ master_Product r = None
        /\ flag_age_missing r = true).
Proof.
  apply (unmatched_policy_kept ex_claim_basic ex_claim_diagnosis
           ex_claim_doctor ex_policy_info ex_hospital_info ex_claim_C3).
  - simpl. auto.
  - intros p Hp. no_row Hp.
Defined.

(** ** Rollups *)

Lemma nth_rule_flags {B : Type} (f : Rule -> B) (rule : Rule) (d : B) :
  nth (rule_index rule) (map f rule_flags) d = f rule.
Proof. destruct rule; reflexivity. Qed.

Lemma In_groupby_sum {A : Type} (key : A -> option string)
  (col : Rule -> A -> option bool) (rows : list A) (g : FlagSums) :
  In g (groupby_sum key col rows) <->
  In (g_key g) (group_keys key rows)
  /\ g_sums g
     = map (fun rule =>
              nansum (map (col rule) (filter (in_group key (g_key g)) rows)))
         rule_flags.
Proof.
  unfold groupby_sum. rewrite in_map_iff. split.
  - intros (k & <- & Hk). simpl. auto.
  - intros [Hk Hs]. exists (g_key g). split; [| exact Hk].
    destruct g as [k sums]. simpl in *. now rewrite Hs.
Qed.

Lemma g_sum_groupby_sum {A : Type} (key : A -> option string)
  (col : Rule -> A -> option bool) (rows : list A) (g : FlagSums)
  (rule : Rule) :
  In g (groupby_sum key col rows) ->
  g_sum rule g
  = nansum (map (col rule) (filter (in_group key (g_key g)) rows)).
Proof.
  intros Hg. apply In_groupby_sum in Hg. destruct Hg as [_ Hs].
  unfold g_sum. rewrite Hs.
  exact (nth_rule_flags
           (fun x => nansum (map (col x) (filter (in_group key (g_key g)) rows)))
           rule 0).
Qed.

Lemma nansum_cons (x : option bool) (cells : list (option bool)) :
  nansum (x :: cells) = cell_value x + nansum cells.
Proof. reflexivity. Qed.

Lemma nansum_app (a b : list (option bool)) :
  nansum (a ++ b) = nansum a + nansum b.
Proof.
  induction a as [| x a IH]; [reflexivity |].
  cbn [app]. rewrite !nansum_cons, IH. lia.
Qed.

Lemma nansum_flags {A : Type} (f : A -> bool) (l : list A) :
  nansum (map (fun r => Some (f r)) l)
  = Z.of_nat (List.length (filter f l)).
Proof.
  induction l as [| r t IH]; [reflexivity |].
  cbn [map filter]. rewrite nansum_cons, IH.
  destruct (f r); cbn [cell_value List.length]; lia.
Qed.

Lemma group_keys_null_row {A : Type} (key : A -> option string)
  (l1 l2 : list A) (r : A) :
  key r = None ->
  group_keys key (l1 ++ r :: l2) = group_keys key (l1 ++ l2).
Proof.
  intros Hr. induction l1 as [| a t IH]; simpl.
  - now rewrite Hr.
  - now rewrite IH.
Qed.

Lemma filter_group_null_row {A : Type} (key : A -> option string)
  (l1 l2 : list A) (r : A) (k : string) :
  key r = None ->
  filter (in_group key k) (l1 ++ r :: l2)
  = filter (in_group key k) (l1 ++ l2).
Proof.
  intros Hr. rewrite !filter_app. cbn [filter].
  unfold in_group at 2. rewrite Hr. reflexivity.
Qed.

Lemma groupby_sum_null_row {A : Type} (key : A -> option string)
  (col : Rule -> A -> option bool) (l1 l2 : list A) (r : A) :
  key r = None ->
  groupby_sum key col (l1 ++ r :: l2) = groupby_sum key col (l1 ++ l2).
Proof.
  intros Hr. unfold groupby_sum.
  rewrite (group_keys_null_row key l1 l2 r Hr).
  apply map_ext. intros k. f_equal.
  apply map_ext. intros rule.
  now rewrite (filter_group_null_row key l1 l2 r k Hr).
Qed.

(** C10: a master row with a null Hospital ID (a null Agent) belongs
    to no group of the per-hospital (per-agent) rollup: the rollup is
    the one of the table without that row, whatever flags the row
    carries, while the row stays in the table and its Claim ID is
    listed under every rule it satisfies. *)
Theorem null_key_row_in_no_group (m1 m2 : list MasterRow) (r : MasterRow) :
  (master_Hospital_ID r = None ->
     hospital_flags (m1 ++ r :: m2) = hospital_flags (m1 ++ m2))
  /\ (master_Agent r = None ->
     agent_flags (m1 ++ r :: m2) = agent_flags (m1 ++ m2))
  /\ In r (m1 ++ r :: m2)
  /\ (forall rule, flag rule r = true ->
        In (master_Claim_ID r) (claims_per_rule rule (m1 ++ r :: m2))).
Proof.
  split; [| split; [| split]].
  - apply groupby_sum_null_row.
  - apply groupby_sum_null_row.
  - apply in_elt.
  - intros rule Hf. unfold claims_per_rule.
    apply in_map, filter_In. split; [apply in_elt | exact Hf].
Qed.

Lemma null_key_row_in_no_group_witness :
  hospital_flags ex_master = hospital_flags [ex_row_C1; ex_row_C2; ex_row_C4]
  /\ agent_flags ex_master = agent_flags [ex_row_C1; ex_row_C2; ex_row_C4]
  /\ In (Some "C3"%string) (claims_per_rule age_missing ex_master).
Proof.
  rewrite ex_master_rows.
  destruct (null_key_row_in_no_group [ex_row_C1; ex_row_C2] [ex_row_C4]
              ex_row_C3) as (Hh & Ha & _ & Hc).
  split; [exact (Hh eq_refl) |].
  split; [exact (Ha eq_refl) |].
  exact (Hc age_missing eq_refl).
Defined.

(** *** The doctor rollup *)

Lemma filter_merge_left_fst {L R : Type} (kl : L -> option string)
  (kr : R -> option string) (p : L -> bool) (left : list L)
  (right : list R) :
  filter (fun x => p (fst x)) (merge_left kl kr left right)
  = merge_left kl kr (filter p left) right.
Proof.
  unfold merge_left. induction left as [| l t IH]; [reflexivity |].
  cbn [flat_map filter]. rewrite filter_app, IH.
  assert (Hpiece : forall ms : list (L * option R),
             (forall x, In x ms -> fst x = l) ->
             filter (fun x => p (fst x)) ms = if p l then ms else []).
  { induction ms as [| x ms IHms]; intros Hfst.
    - now destruct (p l).
    - cbn [filter]. rewrite (Hfst x (or_introl eq_refl)).
      rewrite IHms by (intros y Hy; apply Hfst; now right).
      now destruct (p l). }
  rewrite Hpiece.
  - destruct (p l); reflexivity.
  - intros x Hx.
    destruct (filter (fun r => key_eqb (kl l) (kr r)) right) as [| m ms].
    + destruct Hx as [<- | []]. reflexivity.
    + apply in_map_iff in Hx. destruct Hx as (r & <- & _). reflexivity.
Qed.

Lemma merge_left_cons {L R : Type} (kl : L -> option string)
  (kr : R -> option string) (l : L) (t : list L) (right : list R) :
  merge_left kl kr (l :: t) right
  = (match filter (fun r => key_eqb (kl l) (kr r)) right with
     | [] => [(l, None)]
     | ms => map (fun r => (l, Some r)) ms
     end ++ merge_left kl kr t right)%list.
Proof. reflexivity. Qed.

Lemma nansum_doctor_flags (rule : Rule) (m : list MasterRow)
  (assignments : list ClaimDoctorRow) :
  nansum (map (joined_flag rule) (doctor_flags assignments m))
  = fold_right Z.add 0 (map (flagged_matches rule m) assignments).
Proof.
  unfold doctor_flags.
  induction assignments as [| a t IH]; [reflexivity |].
  rewrite merge_left_cons, map_app, nansum_app, IH.
  change (fold_right Z.add 0 (map (flagged_matches rule m) (a :: t)))
    with (flagged_matches rule m a
          + fold_right Z.add 0 (map (flagged_matches rule m) t)).
  f_equal. unfold flagged_matches, matches.
  destruct (filter (fun r => key_eqb (cd_Claim_ID a) (master_Claim_ID r)) m)
    as [| r ms]; [reflexivity |].
  rewrite map_map. unfold joined_flag. cbn [snd option_map].
  apply nansum_flags.
Qed.

Lemma flagged_matches_unique (rule : Rule) (m : list MasterRow)
  (a : ClaimDoctorRow) :
  NoDup (map master_Claim_ID m) ->
  flagged_matches rule m a = if flagged_claim rule m a then 1 else 0.
Proof.
  intros Hnd. unfold flagged_matches, flagged_claim, matches.
  pose proof (unique_key_filter master_Claim_ID m (cd_Claim_ID a) Hnd)
    as Hle.
  destruct (filter (fun r => key_eqb (cd_Claim_ID a) (master_Claim_ID r)) m)
    as [| r [| r' ms]]; cbn [List.length] in Hle; [reflexivity | | lia].
  cbn [filter existsb]. destruct (flag rule r); reflexivity.
Qed.

Lemma sum_indicator {A : Type} (f : A -> Z) (p : A -> bool) (l : list A) :
  (forall a, In a l -> f a = if p a then 1 else 0) ->
  fold_right Z.add 0 (map f l) = Z.of_nat (List.length (filter p l)).
Proof.
  induction l as [| a t IH]; intros Hf; [reflexivity |].
  cbn [map fold_right filter].
  rewrite (Hf a (or_introl eq_refl)), IH
    by (intros b Hb; apply Hf; now right).
  destruct (p a); cbn [List.length]; lia.
Qed.

Lemma doctor_group_keys (claim_doctor : list ClaimDoctorRow)
  (m : list MasterRow) (d : string) :
  In d (group_keys (fun x => Doctor_ID (fst x))
          (doctor_flags claim_doctor m))
  <-> exists a, In a claim_doctor /\ Doctor_ID a = Some d.
Proof.
  rewrite In_group_keys. unfold doctor_flags. split.
  - intros ([a o] & Hin & Hk). apply In_merge_left in Hin.
    exists a. split; [apply Hin | exact Hk].
  - intros (a & Ha & Hk).
    destruct (joined_exists (cd_Claim_ID a) master_Claim_ID m) as (o & Ho).
    exists (a, o). split; [| exact Hk].
    apply In_merge_left. auto.
Qed.

(** The doctor rollup over any table of master rows: a doctor with at
    least one assignment has exactly one row in it, and for every rule
    that row's count is the sum, over the doctor's assignments
    (repeated ones included), of the number of joined master rows
    with the flag true.  When no two of the rows share a Claim ID,
    this is the number of the doctor's assignments whose claim has the
    flag true. *)
Lemma doctor_rollup_counts (claim_doctor : list ClaimDoctorRow)
  (m : list MasterRow) (d : string) (rule : Rule) :
  (exists a, In a claim_doctor /\ Doctor_ID a = Some d) ->
  exists g,
    In g (doctor_flags_sum claim_doctor m)
    /\ g_key g = d
    /\ (forall g', In g' (doctor_flags_sum claim_doctor m) ->
                   g_key g' = d -> g' = g)
    /\ g_sum rule g
       = fold_right Z.add 0
           (map (flagged_matches rule m) (assignments_of d claim_doctor))
    /\ (NoDup (map master_Claim_ID m) ->
        g_sum rule g
        = Z.of_nat
            (List.length
               (filter (flagged_claim rule m)
                  (assignments_of d claim_doctor)))).
Proof.
  intros Hd. apply (doctor_group_keys claim_doctor m d) in Hd.
  pose (g := {| g_key := d;
                g_sums :=
                  map (fun x =>
                         nansum
                           (map (joined_flag x)
                              (filter
                                 (in_group (fun y => Doctor_ID (fst y)) d)
                                 (doctor_flags claim_doctor m))))
                    rule_flags |}).
  assert (Hg : In g (doctor_flags_sum claim_doctor m)).
  { apply In_groupby_sum. split; [exact Hd | reflexivity]. }
  assert (Hsum : g_sum rule g
                 = fold_right Z.add 0
                     (map (flagged_matches rule m)
                        (assignments_of d claim_doctor))).
  { rewrite (g_sum_groupby_sum _ _ _ g rule Hg). cbn [g_key g].
    unfold in_group, doctor_flags.
    rewrite (filter_merge_left_fst cd_Claim_ID master_Claim_ID
               (fun a => key_eqb (Doctor_ID a) (Some d))).
    apply nansum_doctor_flags. }
  exists g. split; [exact Hg |]. split; [reflexivity |].
  split; [| split].
  - intros g' Hg' Hk. apply In_groupby_sum in Hg'.
    destruct Hg' as [_ Hs]. destruct g' as [k sums].
    cbn [g_key g_sums] in *. subst k. rewrite Hs. reflexivity.
  - exact Hsum.
  - intros Hnd. rewrite Hsum. apply sum_indicator.
    intros a _. now apply flagged_matches_unique.
Qed.

Lemma ex_master_Claim_ID_key : NoDup (map master_Claim_ID ex_master).
Proof.
  rewrite ex_master_rows.
  repeat constructor; simpl; intuition discriminate.
Qed.

Lemma doctor_rollup_counts_witness :
  exists g,
    In g (doctor_flags_sum ex_claim_doctor ex_master)
    /\ g_key g = "D2"%string
    /\ g_sum age_missing g = 2.
Proof.
  destruct (doctor_rollup_counts ex_claim_doctor ex_master "D2" age_missing)
    as (g & Hg & Hk & _ & _ & Hcount).
  - exists {| cd_Claim_ID := Some "C3"%string;
              Doctor_ID := Some "D2"%string |}.
    split; [simpl; auto 6 | reflexivity].
  - exists g. split; [exact Hg |]. split; [exact Hk |].
    rewrite (Hcount ex_master_Claim_ID_key). vm_compute. reflexivity.
Defined.

(** ** Ranking *)

Lemma insert_desc_perm (g : FlagSums) (l : list FlagSums) :
  Permutation (g :: l) (insert_desc g l).
Proof.
  induction l as [| h t IH]; simpl; [reflexivity |].
  destruct (Total_Flags h <=? Total_Flags g); [reflexivity |].
  rewrite perm_swap. now constructor.
Qed.

Lemma insert_desc_descending (g : FlagSums) (l : list FlagSums) :
  descending l -> descending (insert_desc g l).
Proof.
  unfold descending.
  induction 1 as [| h t Ht IH Hh]; simpl.
  - repeat constructor.
  - destruct (Z.leb_spec (Total_Flags h) (Total_Flags g)) as [Hle | Hgt].
    + constructor; [now constructor |].
      constructor; [exact Hle |].
      rewrite Forall_forall in *. intros x Hx. specialize (Hh x Hx). lia.
    + constructor; [exact IH |].
      apply (Permutation_Forall (insert_desc_perm g t)).
      constructor; [lia | exact Hh].
Qed.

Lemma sort_values_stable_admissible (frame : list FlagSums) :
  sort_values_desc frame (sort_values_stable frame).
Proof.
  unfold sort_values_desc, sort_values_stable.
  induction frame as [| g t IH]; simpl.
  - split; constructor.
  - destruct IH as [IHp IHd]. split.
    + rewrite <- insert_desc_perm. now constructor.
    + now apply insert_desc_descending.
Qed.




Lemma ex_doctor_flags_sum :
  doctor_flags_sum ex_claim_doctor ex_master
  = [ex_sums_D1; ex_sums_D2; ex_sums_D3].
Proof. vm_compute. reflexivity. Qed.

(** * Further properties of the pipeline *)

(** ** Derived columns *)

Lemma wrap64_small (z : Z) :
  INT64_MIN <= z <= INT64_MAX -> wrap64 z = z.
Proof.
  unfold wrap64, INT64_MIN, INT64_MAX. intros H.
  rewrite Z.mod_small by lia. lia.
Qed.

Lemma Age_parsed (p : PolicyRow) (t b : Z) :
  Inception_Date p = Some t -> Birth_Year p = Some b ->
  Age p =
    (if wrap64 (year_from_days (t / NS_PER_DAY) - b) <? 0 then None
     else Some (wrap64 (year_from_days (t / NS_PER_DAY) - b))).
Proof.
  intros Ht Hb. unfold Age. rewrite Ht, Hb. reflexivity.
Qed.

Lemma Age_null_input (p : PolicyRow) :
  Inception_Date p = None \/ Birth_Year p = None -> Age p = None.
Proof.
  unfold Age.
  intros [H | H]; rewrite H; [| destruct (Inception_Date p)]; reflexivity.
Qed.

(** X1: [Age] is null when the inception date is NaT or the birth year
    is null.  With both present, it is the inception year minus the
    birth year when that difference lies between 0 and 2^53 (the
    integers a numeric column holds exactly, whatever its dtype), and
    it is null when the difference is negative and not below the
    least int64.  It is never a negative number. *)
Theorem Age_correct (p : PolicyRow) :
  (Inception_Date p = None \/ Birth_Year p = None -> Age p = None)
  /\ (forall t b,
        Inception_Date p = Some t -> Birth_Year p = Some b ->
        (0 <= year_from_days (t / NS_PER_DAY) - b <= 2 ^ 53 ->
         Age p = Some (year_from_days (t / NS_PER_DAY) - b))
        /\ (INT64_MIN <= year_from_days (t / NS_PER_DAY) - b < 0 ->
            Age p = None))
  /\ (forall a, Age p = Some a -> 0 <= a).
Proof.
  split; [apply Age_null_input |]. split.
  - intros t b Ht Hb. rewrite (Age_parsed p t b Ht Hb).
    set (d := year_from_days (t / NS_PER_DAY) - b).
    split; intros Hd.
    + rewrite wrap64_small by (unfold INT64_MIN, INT64_MAX; lia).
      destruct (Z.ltb_spec d 0); [lia | reflexivity].
    + rewrite wrap64_small by (unfold INT64_MIN, INT64_MAX in *; lia).
      destruct (Z.ltb_spec d 0); [reflexivity | lia].
  - intros a. destruct (Inception_Date p) as [t |] eqn:Ht.
    + destruct (Birth_Year p) as [b |] eqn:Hb.
      * rewrite (Age_parsed p t b Ht Hb).
        destruct (Z.ltb_spec
                    (wrap64 (year_from_days (t / NS_PER_DAY) - b)) 0);
          intros [= <-]; lia.
      * rewrite Age_null_input by now right. discriminate.
    + rewrite Age_null_input by now left. discriminate.
Qed.

Lemma Age_correct_witness :
  Age ex_policy_P1 = Some 33 /\ Age ex_policy_P2 = None.
Proof.
  split.
  - apply (proj1 (proj1 (proj2 (Age_correct ex_policy_P1))
                    (19358 * NS_PER_DAY) 1990 eq_refl eq_refl)).
    vm_compute. split; discriminate.
  - apply (proj2 (proj1 (proj2 (Age_correct ex_policy_P2))
                    (18443 * NS_PER_DAY) 2021 eq_refl eq_refl)).
    vm_compute. split; [discriminate | reflexivity].
Defined.

(** On an int64 column a difference beyond the largest int64 wraps to
    a negative number and is nulled. *)
Example Age_wraps_int64 :
  Age {| Policy_ID := None;
         Inception_Date := to_datetime (Some "2023-01-01"%string);
         Birth_Year := Some (-9223372036854775000);
         Gender := None; Product := None; Agent := None |} = None.
Proof. reflexivity. Qed.

(** X2: with both dates parsed, a discharge at or after the admission
    gives a stay of at least one day; a discharge before the admission
    by at most one day gives a stay of 0, which is kept; only a
    discharge more than one day before the admission is nulled. *)
Theorem Length_of_Stay_edges (c : ClaimRow) (a d : Z) :
  Admission_Date c = Some a -> Discharged_Date c = Some d ->
  (a <= d -> exists v, Length_of_Stay c = Some v /\ 1 <= v)
  /\ (d < a -> a - d <= NS_PER_DAY -> Length_of_Stay c = Some 0)
  /\ (NS_PER_DAY < a - d -> Length_of_Stay c = None).
Proof.
  intros Ha Hd. rewrite (Length_of_Stay_parsed c a d Ha Hd).
  assert (Hpos : 0 < NS_PER_DAY) by (unfold NS_PER_DAY; lia).
  pose proof (Z.div_mod (d - a) NS_PER_DAY ltac:(lia)) as Hdm.
  pose proof (Z.mod_pos_bound (d - a) NS_PER_DAY Hpos) as Hmod.
  set (q := (d - a) / NS_PER_DAY) in *.
  set (m := (d - a) mod NS_PER_DAY) in *.
  split; [| split].
  - intros Hle. assert (0 <= q) by nia.
    destruct (Z.ltb_spec (q + 1) 0); [lia |].
    exists (q + 1). split; [reflexivity | lia].
  - intros Hlt Hday. assert (q = -1) by nia. subst q.
    replace ((d - a) / NS_PER_DAY) with (-1) by (symmetry; assumption).
    reflexivity.
  - intros Hfar. assert (q + 1 < 0) by nia.
    destruct (Z.ltb_spec (q + 1) 0); [reflexivity | lia].
Qed.

Lemma Length_of_Stay_edges_witness :
  (exists v, Length_of_Stay ex_claim_C3 = Some v /\ 1 <= v)
  /\ Length_of_Stay
       (mk_claim None None None
          (Some "2023-04-02"%string) (Some "2023-04-01"%string))
     = Some 0
  /\ Length_of_Stay ex_claim_C4 = None.
Proof.
  split; [| split].
  - apply (proj1 (Length_of_Stay_edges ex_claim_C3
                    (19421 * NS_PER_DAY) (19421 * NS_PER_DAY)
                    eq_refl eq_refl)).
    lia.
  - apply (proj1 (proj2 (Length_of_Stay_edges
                           (mk_claim None None None
                              (Some "2023-04-02"%string)
                              (Some "2023-04-01"%string))
                           (19449 * NS_PER_DAY) (19448 * NS_PER_DAY)
                           eq_refl eq_refl)));
      vm_compute; (reflexivity || discriminate).
  - apply (proj2 (proj2 (Length_of_Stay_edges ex_claim_C4
                           (19457 * NS_PER_DAY) (19448 * NS_PER_DAY)
                           eq_refl eq_refl))).
    vm_compute. reflexivity.
Defined.

(** ** How the flags relate *)

Lemma flag_longstay_onediag_true (r : MasterRow) :
  flag_longstay_onediag r = true ->
  Num_Diagnoses r = Some 1
  /\ exists s, master_Length_of_Stay r = Some s /\ 7 < s.
Proof.
  unfold flag_longstay_onediag.
  rewrite (master_get_present "Num_Diagnoses" 0 Num_Diagnoses r eq_refl).
  rewrite (master_get_present "Length_of_Stay" 0 master_Length_of_Stay r
             eq_refl).
  rewrite andb_true_iff, series_gt_true, series_eq_true.
  intros [Hs Hn]. auto.
Qed.

Lemma longstay_excludes (r : MasterRow) :
  flag_longstay_onediag r = true ->
  flag_shortstay_manydiag r = false /\ flag_many_diagnoses r = false.
Proof.
  intros H. apply flag_longstay_onediag_true in H.
  destruct H as (Hn & s & Hs & Hlt).
  unfold flag_shortstay_manydiag, flag_many_diagnoses.
  rewrite !(master_get_present "Num_Diagnoses" 0 Num_Diagnoses r eq_refl).
  rewrite (master_get_present "Length_of_Stay" 0 master_Length_of_Stay r
             eq_refl).
  rewrite Hn, Hs. simpl. rewrite andb_false_r. auto.
Qed.

Lemma flags_of_row_range (r : MasterRow) : 0 <= flags_of_row r <= 4.
Proof.
  unfold flags_of_row, sumZ. cbn [rule_flags map fold_right flag].
  destruct (flag_longstay_onediag r) eqn:El.
  - destruct (longstay_excludes r El) as [-> ->].
    destruct (flag_manydoctors r), (flag_age_missing r); lia.
  - destruct (flag_many_diagnoses r), (flag_shortstay_manydiag r),
      (flag_manydoctors r), (flag_age_missing r); lia.
Qed.

(** X3: [longstay_onediag] excludes both [shortstay_manydiag] and
    [many_diagnoses]; a row flagged [many_diagnoses] whose stay is at
    most two days is also flagged [shortstay_manydiag]; so no row
    carries all five flags: the number of flags of a row is between
    0 and 4. *)
Theorem flags_exclude (r : MasterRow) :
  (flag_longstay_onediag r = true ->
     flag_shortstay_manydiag r = false /\ flag_many_diagnoses r = false)
  /\ (flag_many_diagnoses r = true ->
      forall s, master_Length_of_Stay r = Some s -> s <= 2 ->
                flag_shortstay_manydiag r = true)
  /\ 0 <= flags_of_row r <= 4.
Proof.
  split; [apply longstay_excludes |]. split; [| apply flags_of_row_range].
  unfold flag_many_diagnoses, flag_shortstay_manydiag.
  rewrite !(master_get_present "Num_Diagnoses" 0 Num_Diagnoses r eq_refl).
  rewrite (master_get_present "Length_of_Stay" 0 master_Length_of_Stay r
             eq_refl).
  intros Hm s Hs Hle. apply series_gt_true in Hm.
  destruct Hm as (n & Hn & Hlt). rewrite Hs, Hn. simpl.
  apply andb_true_iff. split; [apply Z.leb_le | apply Z.ltb_lt]; lia.
Qed.

Lemma flags_exclude_witness :
  (flag_shortstay_manydiag ex_row_C1 = false
   /\ flag_many_diagnoses ex_row_C1 = false)
  /\ flag_shortstay_manydiag
       {| claim := ex_claim_C3; Num_Diagnoses := Some 5;
          Num_Doctors := None; policy := None; hospital := None |} = true.
Proof.
  split.
  - apply (proj1 (flags_exclude ex_row_C1)). reflexivity.
  - apply (proj1 (proj2 (flags_exclude
                           {| claim := ex_claim_C3;
                              Num_Diagnoses := Some 5;
                              Num_Doctors := None; policy := None;
                              hospital := None |})) eq_refl 1 eq_refl).
    lia.
Defined.

Section MasterFacts.

Variable claim_basic : list ClaimRow.
Variable claim_diagnosis : list DiagnosisRow.
Variable claim_doctor : list ClaimDoctorRow.
Variable policy_info : list PolicyRow.
Variable hospital_info : list HospitalRow.

(** X4: in [master], when the birth year and inception year of the
    policy attached to a row differ by an amount that fits in an
    int64, the row is flagged [age_missing] exactly when no policy row
    has the claim's Policy ID, or the attached policy row has a NaT
    inception date, a null birth year, or a birth year later than the
    inception year. *)
Theorem age_missing_causes (r : MasterRow) :
  In r (master claim_basic claim_diagnosis claim_doctor policy_info
          hospital_info) ->
  (forall p t b,
      policy r = Some p ->
      Inception_Date p = Some t -> Birth_Year p = Some b ->
      INT64_MIN <= year_from_days (t / NS_PER_DAY) - b <= INT64_MAX) ->
  (flag_age_missing r = true <->
   (forall p, In p policy_info -> Policy_ID p <> c_Policy_ID (claim r))
   \/ exists p,
       policy r = Some p /\ In p policy_info
       /\ Policy_ID p = c_Policy_ID (claim r)
       /\ (Inception_Date p = None \/ Birth_Year p = None
           \/ exists t b,
               Inception_Date p = Some t /\ Birth_Year p = Some b
               /\ year_from_days (t / NS_PER_DAY) < b)).
Proof.
  intros Hr Hfit. apply In_master in Hr.
  destruct Hr as (c & dc & dr & p & h & -> & _ & _ & _ & Hp & _).
  unfold flag_age_missing, master_Age. cbn [policy claim] in *.
  destruct p as [p |]; simpl in Hp.
  - destruct Hp as [Hin Hk]. apply key_eqb_eq in Hk. split.
    + intros Hna. right. exists p.
      split; [reflexivity |]. split; [exact Hin |].
      split; [now symmetry |].
      destruct (Inception_Date p) as [t |] eqn:Ht; [| now left].
      destruct (Birth_Year p) as [b |] eqn:Hb; [| now right; left].
      right; right. exists t, b. split; [reflexivity |].
      split; [reflexivity |].
      rewrite (Age_parsed p t b Ht Hb) in Hna.
      rewrite wrap64_small in Hna by exact (Hfit p t b eq_refl Ht Hb).
      destruct (Z.ltb_spec (year_from_days (t / NS_PER_DAY) - b) 0);
        [lia | discriminate].
    + intros [Hno | (p' & [= <-] & _ & _ & Hbad)].
      * exfalso. exact (Hno p Hin (eq_sym Hk)).
      * destruct Hbad as [Ht | [Hb | (t & b & Ht & Hb & Hlt)]].
        -- rewrite Age_null_input by now left. reflexivity.
        -- rewrite Age_null_input by now right. reflexivity.
        -- rewrite (Age_parsed p t b Ht Hb).
           rewrite wrap64_small by exact (Hfit p t b eq_refl Ht Hb).
           destruct (Z.ltb_spec (year_from_days (t / NS_PER_DAY) - b) 0);
             [reflexivity | lia].
  - split; [| reflexivity]. intros _. left.
    intros p' Hin Hk. specialize (Hp p' Hin).
    rewrite <- Hk, key_eqb_refl in Hp. discriminate.
Qed.

End MasterFacts.

Lemma age_missing_causes_witness :
  flag_age_missing ex_row_C2 = true <->
  (forall p, In p ex_policy_info -> Policy_ID p <> c_Policy_ID ex_claim_C2)
  \/ exists p,
      Some ex_policy_P2 = Some p /\ In p ex_policy_info
      /\ Policy_ID p = c_Policy_ID ex_claim_C2
      /\ (Inception_Date p = None \/ Birth_Year p = None
          \/ exists t b,
              Inception_Date p = Some t /\ Birth_Year p = Some b
              /\ year_from_days (t / NS_PER_DAY) < b).
Proof.
  apply (age_missing_causes ex_claim_basic ex_claim_diagnosis
           ex_claim_doctor ex_policy_info ex_hospital_info ex_row_C2).
  - vm_compute. auto.
  - intros p t b [= <-] [= <-] [= <-]. vm_compute.
    split; discriminate.
Defined.

(** ** The joins behind [master] *)

Lemma merge_left_length_ge {L R : Type} (kl : L -> option string)
  (kr : R -> option string) (left : list L) (right : list R) :
  (List.length left <= List.length (merge_left kl kr left right))%nat.
Proof.
  induction left as [| l t IH]; [apply Nat.le_refl |].
  rewrite merge_left_cons, length_app.
  destruct (filter (fun r => key_eqb (kl l) (kr r)) right) as [| m ms];
    cbn [List.length map]; lia.
Qed.

Lemma joined_Some {R : Type} (k : option string) (kr : R -> option string)
  (right : list R) (r : R) :
  In r right -> kr r = k -> joined k kr right (Some r).
Proof.
  intros Hin <-. split; [exact Hin | apply key_eqb_refl].
Qed.

Section JoinFacts.

Variable claim_basic : list ClaimRow.
Variable claim_diagnosis : list DiagnosisRow.
Variable claim_doctor : list ClaimDoctorRow.
Variable policy_info : list PolicyRow.
Variable hospital_info : list HospitalRow.

(** X5: every row of [master] extends a row of [claim_basic]; the
    policy row attached to it is a row of [policy_info] with the
    claim's Policy ID, and none is attached only when no policy row
    has that ID; likewise for the hospital row and Hospital ID. *)
Theorem master_join_sound (r : MasterRow) :
  In r (master claim_basic claim_diagnosis claim_doctor policy_info
          hospital_info) ->
  In (claim r) claim_basic
  /\ (forall p, policy r = Some p ->
        In p policy_info /\ Policy_ID p = c_Policy_ID (claim r))
  /\ (policy r = None ->
      forall p, In p policy_info -> Policy_ID p <> c_Policy_ID (claim r))
  /\ (forall h, hospital r = Some h ->
        In h hospital_info /\ Hospital_ID h = c_Hospital_ID (claim r))
  /\ (hospital r = None ->
      forall h, In h hospital_info ->
                Hospital_ID h <> c_Hospital_ID (claim r)).
Proof.
  intros Hr. apply In_master in Hr.
  destruct Hr as (c & dc & dr & p & h & -> & Hc & _ & _ & Hp & Hh).
  cbn [claim policy hospital].
  split; [exact Hc |]. split; [| split; [| split]].
  - intros p' ->. destruct Hp as [Hin Hk].
    apply key_eqb_eq in Hk. auto.
  - intros -> p' Hin Hk. specialize (Hp p' Hin).
    rewrite <- Hk, key_eqb_refl in Hp. discriminate.
  - intros h' ->. destruct Hh as [Hin Hk].
    apply key_eqb_eq in Hk. auto.
  - intros -> h' Hin Hk. specialize (Hh h' Hin).
    rewrite <- Hk, key_eqb_refl in Hh. discriminate.
Qed.

(** X6: no left merge drops a row: every claim of [claim_basic] has a
    row in [master], [master] is never shorter than [claim_basic],
    and a claim is paired with every policy row and every hospital
    row that carry its keys, duplicates in those tables included. *)
Theorem master_join_complete :
  (forall c, In c claim_basic ->
     exists r,
       In r (master claim_basic claim_diagnosis claim_doctor policy_info
               hospital_info)
       /\ claim r = c)
  /\ (forall c p h,
        In c claim_basic ->
        In p policy_info -> Policy_ID p = c_Policy_ID c ->
        In h hospital_info -> Hospital_ID h = c_Hospital_ID c ->
        exists r,
          In r (master claim_basic claim_diagnosis claim_doctor
                  policy_info hospital_info)
          /\ claim r = c /\ policy r = Some p /\ hospital r = Some h)
  /\ (List.length claim_basic
      <= List.length
           (master claim_basic claim_diagnosis claim_doctor policy_info
              hospital_info))%nat.
Proof.
  split; [| split].
  - intros c Hc.
    destruct (joined_exists (Claim_ID c) count_key
                (diagnosis_count claim_diagnosis)) as (dc & Hdc).
    destruct (joined_exists (Claim_ID c) count_key
                (doctor_count claim_doctor)) as (dr & Hdr).
    destruct (joined_exists (c_Policy_ID c) Policy_ID policy_info)
      as (p & Hp).
    destruct (joined_exists (c_Hospital_ID c) Hospital_ID hospital_info)
      as (h & Hh).
    eexists. split; [apply In_master; exists c, dc, dr, p, h |].
    + repeat split; eassumption.
    + reflexivity.
  - intros c p h Hc Hp Hkp Hh Hkh.
    destruct (joined_exists (Claim_ID c) count_key
                (diagnosis_count claim_diagnosis)) as (dc & Hdc).
    destruct (joined_exists (Claim_ID c) count_key
                (doctor_count claim_doctor)) as (dr & Hdr).
    eexists. split; [apply In_master; exists c, dc, dr, (Some p), (Some h) |].
    + split; [reflexivity |]. split; [exact Hc |].
      split; [exact Hdc |]. split; [exact Hdr |].
      split; now apply joined_Some.
    + repeat split.
  - unfold master. rewrite length_map.
    eapply Nat.le_trans; [| apply merge_left_length_ge].
    eapply Nat.le_trans; [| apply merge_left_length_ge].
    eapply Nat.le_trans; [| apply merge_left_length_ge].
    apply merge_left_length_ge.
Qed.

End JoinFacts.

Lemma master_join_sound_witness :
  In ex_claim_C1 ex_claim_basic
  /\ (forall p, Some ex_policy_P1 = Some p ->
        In p ex_policy_info /\ Policy_ID p = c_Policy_ID ex_claim_C1)
  /\ (Some ex_policy_P1 = None ->
      forall p, In p ex_policy_info ->
                Policy_ID p <> c_Policy_ID ex_claim_C1)
  /\ (forall h, Some ex_hospital_H1 = Some h ->
        In h ex_hospital_info /\ Hospital_ID h = c_Hospital_ID ex_claim_C1)
  /\ (Some ex_hospital_H1 = None ->
      forall h, In h ex_hospital_info ->
                Hospital_ID h <> c_Hospital_ID ex_claim_C1).
Proof.
  apply (master_join_sound ex_claim_basic ex_claim_diagnosis ex_claim_doctor
           ex_policy_info ex_hospital_info ex_row_C1).
  vm_compute. auto.
Defined.

Lemma master_join_complete_witness :
  exists r, In r ex_master
            /\ claim r = ex_claim_C4 /\ policy r = Some ex_policy_P1
            /\ hospital r = Some ex_hospital_H2.
Proof.
  apply (proj1 (proj2 (master_join_complete ex_claim_basic
                         ex_claim_diagnosis ex_claim_doctor ex_policy_info
                         ex_hospital_info)));
    simpl; auto.
Defined.

(** ** Group-by as a partition of the keyed rows *)

Lemma sumZ_cons (x : Z) (l : list Z) : sumZ (x :: l) = x + sumZ l.
Proof. reflexivity. Qed.

Lemma sum_filter_split {A : Type} (w : A -> Z) (p q : A -> bool)
  (l : list A) :
  (forall a, p a = true -> q a = false) ->
  sumZ (map w (filter (fun a => p a || q a) l))
  = sumZ (map w (filter p l)) + sumZ (map w (filter q l)).
Proof.
  intros Hpq. induction l as [| a t IH]; [reflexivity |].
  cbn [filter]. destruct (p a) eqn:Ep.
  - rewrite (Hpq a Ep). cbn [orb map]. rewrite !sumZ_cons, IH. lia.
  - cbn [orb]. destruct (q a); cbn [map]; rewrite ?sumZ_cons, IH; lia.
Qed.

Lemma key_among_absent {A : Type} (key : A -> option string)
  (ks : list string) (k : string) (a : A) :
  ~ In k ks -> in_group key k a = true -> key_among key ks a = false.
Proof.
  intros Hk Ha. unfold in_group in Ha. apply key_eqb_eq in Ha.
  unfold key_among. induction ks as [| k' t IH]; [reflexivity |].
  cbn [existsb]. rewrite IH by (intros Hin; apply Hk; now right).
  unfold in_group. rewrite Ha. cbn [key_eqb].
  destruct (String.eqb_spec k k') as [-> |]; [| reflexivity].
  exfalso. apply Hk. now left.
Qed.

Lemma group_partition_keys {A : Type} (key : A -> option string)
  (w : A -> Z) (rows : list A) (ks : list string) :
  NoDup ks ->
  sumZ (map (fun k => sumZ (map w (filter (in_group key k) rows))) ks)
  = sumZ (map w (filter (key_among key ks) rows)).
Proof.
  induction 1 as [| k t Hk Hnd IH].
  - cbn [map]. unfold key_among. cbn [existsb].
    induction rows as [| a l IHl]; [reflexivity | exact IHl].
  - cbn [map]. rewrite sumZ_cons, IH.
    symmetry. apply (sum_filter_split w (in_group key k) (key_among key t)).
    intros a. apply key_among_absent, Hk.
Qed.

Lemma key_among_group_keys {A : Type} (key : A -> option string)
  (rows : list A) (a : A) :
  In a rows -> key_among key (group_keys key rows) a = notna (key a).
Proof.
  intros Ha. unfold key_among, notna.
  destruct (key a) as [k |] eqn:Ek; cbn [isna negb].
  - apply existsb_exists. exists k. split.
    + apply In_group_keys. eauto.
    + unfold in_group. rewrite Ek. apply key_eqb_refl.
  - destruct (existsb _ _) eqn:E; [| reflexivity].
    apply existsb_exists in E. destruct E as (k & _ & Hk).
    unfold in_group in Hk. rewrite Ek in Hk. discriminate.
Qed.

Lemma group_partition {A : Type} (key : A -> option string) (w : A -> Z)
  (rows : list A) :
  sumZ (map (fun k => sumZ (map w (filter (in_group key k) rows)))
          (group_keys key rows))
  = sumZ (map w (filter (fun a => notna (key a)) rows)).
Proof.
  rewrite (group_partition_keys key w rows _ (group_keys_NoDup key rows)).
  f_equal. f_equal. apply filter_ext_in.
  intros a Ha. now apply key_among_group_keys.
Qed.

Lemma sumZ_indicator {A : Type} (p : A -> bool) (l : list A) :
  sumZ (map (fun a => if p a then 1 else 0) l)
  = Z.of_nat (List.length (filter p l)).
Proof.
  induction l as [| a t IH]; [reflexivity |].
  cbn [map filter]. rewrite sumZ_cons, IH.
  destruct (p a); cbn [List.length]; lia.
Qed.

Lemma filter_length_le {A : Type} (p : A -> bool) (l : list A) :
  (List.length (filter p l) <= List.length l)%nat.
Proof.
  induction l as [| a t IH]; simpl; [lia |].
  destruct (p a); simpl; lia.
Qed.

Lemma filter_filter_and {A : Type} (p q : A -> bool) (l : list A) :
  filter p (filter q l) = filter (fun a => q a && p a) l.
Proof.
  induction l as [| a t IH]; [reflexivity |].
  cbn [filter]. destruct (q a); cbn [filter andb]; rewrite IH;
    reflexivity.
Qed.

Lemma groupby_count_correct {A B : Type} (key : A -> option string)
  (col : A -> option B) (rows : list A) :
  keys_ascending (map cnt_Claim_ID (groupby_count key col rows))
  /\ NoDup (map cnt_Claim_ID (groupby_count key col rows))
  /\ (forall k, In k (map cnt_Claim_ID (groupby_count key col rows))
                <-> exists a, In a rows /\ key a = Some k)
  /\ (forall row, In row (groupby_count key col rows) ->
        0 <= cnt_value row
        <= Z.of_nat
             (List.length (filter (in_group key (cnt_Claim_ID row)) rows)))
  /\ sumZ (map cnt_value (groupby_count key col rows))
     = Z.of_nat
         (List.length
            (filter (fun a => notna (key a) && notna (col a)) rows)).
Proof.
  assert (Hkeys : map cnt_Claim_ID (groupby_count key col rows)
                  = group_keys key rows).
  { unfold groupby_count. rewrite map_map. apply map_id. }
  rewrite Hkeys.
  split; [apply group_keys_ascending |].
  split; [apply group_keys_NoDup |].
  split; [intros k; apply In_group_keys |]. split.
  - intros row Hrow. unfold groupby_count in Hrow.
    apply in_map_iff in Hrow. destruct Hrow as (k & <- & _).
    cbn [cnt_value cnt_Claim_ID].
    pose proof (filter_length_le (fun a => notna (col a))
                  (filter (in_group key k) rows)).
    lia.
  - unfold groupby_count. rewrite map_map. cbn [cnt_value].
    rewrite (map_ext _
               (fun k =>
                  sumZ (map (fun a => if notna (col a) then 1 else 0)
                          (filter (in_group key k) rows))))
      by (intros k; now rewrite sumZ_indicator).
    rewrite group_partition, sumZ_indicator, filter_filter_and.
    reflexivity.
Qed.

(** X7: [diagnosis_count] and [doctor_count] have exactly one row per
    distinct non-null Claim ID of the child table; a count is between
    0 and the number of the claim's rows; and the counts add up to the
    number of child rows that have both a Claim ID and a non-null
    counted column, so rows with a null Claim ID are counted
    nowhere. *)
Theorem child_counts_correct (claim_diagnosis : list DiagnosisRow)
  (claim_doctor : list ClaimDoctorRow) :
  (NoDup (map cnt_Claim_ID (diagnosis_count claim_diagnosis))
   /\ (forall k, In k (map cnt_Claim_ID (diagnosis_count claim_diagnosis))
                 <-> exists d, In d claim_diagnosis
                               /\ d_Claim_ID d = Some k)
   /\ (forall row, In row (diagnosis_count claim_diagnosis) ->
         0 <= cnt_value row
         <= Z.of_nat
              (List.length
                 (filter (in_group d_Claim_ID (cnt_Claim_ID row))
                    claim_diagnosis)))
   /\ sumZ (map cnt_value (diagnosis_count claim_diagnosis))
      = Z.of_nat
          (List.length
             (filter (fun d => notna (d_Claim_ID d) && notna (Diagnosis d))
                claim_diagnosis)))
  /\ (NoDup (map cnt_Claim_ID (doctor_count claim_doctor))
      /\ (forall k, In k (map cnt_Claim_ID (doctor_count claim_doctor))
                    <-> exists a, In a claim_doctor
                                  /\ cd_Claim_ID a = Some k)
      /\ (forall row, In row (doctor_count claim_doctor) ->
            0 <= cnt_value row
            <= Z.of_nat
                 (List.length
                    (filter (in_group cd_Claim_ID (cnt_Claim_ID row))
                       claim_doctor)))
      /\ sumZ (map cnt_value (doctor_count claim_doctor))
         = Z.of_nat
             (List.length
                (filter
                   (fun a => notna (cd_Claim_ID a) && notna (Doctor_ID a))
                   claim_doctor))).
Proof.
  split.
  - exact (proj2 (groupby_count_correct d_Claim_ID Diagnosis
                    claim_diagnosis)).
  - exact (proj2 (groupby_count_correct cd_Claim_ID Doctor_ID
                    claim_doctor)).
Qed.

(** X8: each exploratory count table (per Gender, Product and Agent of
    [policy_info], per Location of [hospital_info]) has exactly one
    row per distinct non-null value of its column, and its counts add
    up to the number of rows that have both that value and a non-null
    counted ID. *)
Theorem exploratory_counts_correct (policy_info : list PolicyRow)
  (hospital_info : list HospitalRow) :
  (NoDup (map cnt_Claim_ID (gender_count policy_info))
   /\ (forall k, In k (map cnt_Claim_ID (gender_count policy_info))
                 <-> exists p, In p policy_info /\ Gender p = Some k)
   /\ sumZ (map cnt_value (gender_count policy_info))
      = Z.of_nat
          (List.length
             (filter (fun p => notna (Gender p) && notna (Policy_ID p))
                policy_info)))
  /\ (NoDup (map cnt_Claim_ID (product_count policy_info))
      /\ (forall k, In k (map cnt_Claim_ID (product_count policy_info))
                    <-> exists p, In p policy_info /\ Product p = Some k)
      /\ sumZ (map cnt_value (product_count policy_info))
         = Z.of_nat
             (List.length
                (filter (fun p => notna (Product p) && notna (Policy_ID p))
                   policy_info)))
  /\ (NoDup (map cnt_Claim_ID (agent_count policy_info))
      /\ (forall k, In k (map cnt_Claim_ID (agent_count policy_info))
                    <-> exists p, In p policy_info /\ Agent p = Some k)
      /\ sumZ (map cnt_value (agent_count policy_info))
         = Z.of_nat
             (List.length
                (filter (fun p => notna (Agent p) && notna (Policy_ID p))
                   policy_info)))
  /\ (NoDup (map cnt_Claim_ID (location_count hospital_info))
      /\ (forall k, In k (map cnt_Claim_ID (location_count hospital_info))
                    <-> exists h, In h hospital_info
                                  /\ Location h = Some k)
      /\ sumZ (map cnt_value (location_count hospital_info))
         = Z.of_nat
             (List.length
                (filter
                   (fun h => notna (Location h) && notna (Hospital_ID h))
                   hospital_info))).
Proof.
  unfold gender_count, product_count, agent_count, location_count.
  split; [| split; [| split]].
  - destruct (groupby_count_correct Gender Policy_ID policy_info)
      as (_ & Hnd & Hin & _ & Hsum). auto.
  - destruct (groupby_count_correct Product Policy_ID policy_info)
      as (_ & Hnd & Hin & _ & Hsum). auto.
  - destruct (groupby_count_correct Agent Policy_ID policy_info)
      as (_ & Hnd & Hin & _ & Hsum). auto.
  - destruct (groupby_count_correct Location Hospital_ID hospital_info)
      as (_ & Hnd & Hin & _ & Hsum). auto.
Qed.

(** ** Rollups, continued *)

Lemma nansum_sumZ {A : Type} (col : A -> option bool) (l : list A) :
  nansum (map col l) = sumZ (map (fun a => cell_value (col a)) l).
Proof. unfold nansum, sumZ. now rewrite map_map. Qed.

Lemma groupby_sum_column {A : Type} (key : A -> option string)
  (col : Rule -> A -> option bool) (rows : list A) (rule : Rule) :
  map (g_sum rule) (groupby_sum key col rows)
  = map (fun k => nansum (map (col rule) (filter (in_group key k) rows)))
      (group_keys key rows).
Proof.
  unfold groupby_sum. rewrite map_map. apply map_ext. intros k.
  unfold g_sum. cbn [g_sums].
  exact (nth_rule_flags
           (fun x => nansum (map (col x) (filter (in_group key k) rows)))
           rule 0).
Qed.

Lemma groupby_sum_total {A : Type} (key : A -> option string)
  (col : Rule -> A -> option bool) (rows : list A) (rule : Rule) :
  sumZ (map (g_sum rule) (groupby_sum key col rows))
  = nansum (map (col rule) (filter (fun a => notna (key a)) rows)).
Proof.
  rewrite groupby_sum_column.
  rewrite (map_ext _
             (fun k =>
                sumZ (map (fun a => cell_value (col rule a))
                        (filter (in_group key k) rows))))
    by (intros k; apply nansum_sumZ).
  rewrite group_partition. symmetry. apply nansum_sumZ.
Qed.

Lemma filter_length_split {A : Type} (p q : A -> bool) (l : list A) :
  List.length (filter p l)
  = (List.length (filter p (filter q l))
     + List.length (filter p (filter (fun a => negb (q a)) l)))%nat.
Proof.
  induction l as [| a t IH]; [reflexivity |].
  cbn [filter]. destruct (q a); cbn [negb filter];
    destruct (p a); cbn [List.length]; lia.
Qed.

Lemma flag_rollup_total (key : MasterRow -> option string)
  (m : list MasterRow) (rule : Rule) :
  sumZ (map (g_sum rule)
          (groupby_sum key (fun x r => Some (flag x r)) m))
  + Z.of_nat
      (List.length
         (filter (flag rule) (filter (fun r => isna (key r)) m)))
  = Z.of_nat (List.length (claims_per_rule rule m)).
Proof.
  rewrite groupby_sum_total, (nansum_flags (flag rule)).
  unfold claims_per_rule. rewrite length_map.
  rewrite (filter_length_split (flag rule) (fun r => notna (key r)) m).
  unfold notna.
  rewrite (filter_ext (fun a => negb (negb (isna (key a))))
             (fun a => isna (key a)))
    by (intros a; apply negb_involutive).
  lia.
Qed.

(** X9: nothing is counted twice and only null keys are lost: for
    every rule, the per-hospital sums of that rule plus the number of
    flagged rows with a null Hospital ID equal the number of claims
    listed for the rule; the same holds per agent with the rows whose
    Agent is null; and the per-doctor sums add up to the flagged
    joins of the assignments that have a Doctor ID. *)
Theorem rollups_conserve_flags (claim_doctor : list ClaimDoctorRow)
  (m : list MasterRow) (rule : Rule) :
  sumZ (map (g_sum rule) (hospital_flags m))
  + Z.of_nat
      (List.length
         (filter (flag rule)
            (filter (fun r => isna (master_Hospital_ID r)) m)))
  = Z.of_nat (List.length (claims_per_rule rule m))
  /\ sumZ (map (g_sum rule) (agent_flags m))
     + Z.of_nat
         (List.length
            (filter (flag rule)
               (filter (fun r => isna (master_Agent r)) m)))
     = Z.of_nat (List.length (claims_per_rule rule m))
  /\ sumZ (map (g_sum rule) (doctor_flags_sum claim_doctor m))
     = sumZ (map (flagged_matches rule m)
               (filter (fun a => notna (Doctor_ID a)) claim_doctor)).
Proof.
  split; [apply flag_rollup_total |]. split; [apply flag_rollup_total |].
  unfold doctor_flags_sum. rewrite groupby_sum_total.
  unfold doctor_flags.
  rewrite (filter_merge_left_fst cd_Claim_ID master_Claim_ID
             (fun a => notna (Doctor_ID a))).
  apply nansum_doctor_flags.
Qed.

Lemma flag_group_exact (key : MasterRow -> option string)
  (m : list MasterRow) (k : string) (rule : Rule) :
  (exists r, In r m /\ key r = Some k) ->
  exists g,
    In g (groupby_sum key (fun x r => Some (flag x r)) m)
    /\ g_key g = k
    /\ (forall g', In g' (groupby_sum key (fun x r => Some (flag x r)) m) ->
                   g_key g' = k -> g' = g)
    /\ g_sum rule g
       = Z.of_nat
           (List.length (filter (flag rule) (filter (in_group key k) m))).
Proof.
  intros Hk. apply In_group_keys in Hk.
  pose (g := {| g_key := k;
                g_sums :=
                  map (fun x =>
                         nansum
                           (map (fun r => Some (flag x r))
                              (filter (in_group key k) m)))
                    rule_flags |}).
  assert (Hg : In g (groupby_sum key (fun x r => Some (flag x r)) m)).
  { apply In_groupby_sum. split; [exact Hk | reflexivity]. }
  exists g. split; [exact Hg |]. split; [reflexivity |]. split.
  - intros g' Hg' Hk'. apply In_groupby_sum in Hg'.
    destruct Hg' as [_ Hs]. destruct g' as [k' sums].
    cbn [g_key g_sums] in *. subst k'. rewrite Hs. reflexivity.
  - rewrite (g_sum_groupby_sum _ _ _ g rule Hg). cbn [g_key g].
    apply nansum_flags.
Qed.

(** X10: a hospital with at least one claim in the table has exactly
    one row in the per-hospital rollup, and its count for a rule is
    the number of that hospital's claims with the flag true; every row
    of the rollup belongs to a hospital of some claim.  The same holds
    per agent, an agent's claims being those whose joined policy names
    the agent. *)
Theorem hospital_agent_rollup_counts (m : list MasterRow) (rule : Rule) :
  (forall k,
      (exists r, In r m /\ master_Hospital_ID r = Some k) ->
      exists g,
        In g (hospital_flags m) /\ g_key g = k
        /\ (forall g', In g' (hospital_flags m) -> g_key g' = k -> g' = g)
        /\ g_sum rule g
           = Z.of_nat
               (List.length
                  (filter (flag rule)
                     (filter (in_group master_Hospital_ID k) m))))
  /\ (forall g, In g (hospital_flags m) ->
        exists r, In r m /\ master_Hospital_ID r = Some (g_key g))
  /\ (forall k,
        (exists r, In r m /\ master_Agent r = Some k) ->
        exists g,
          In g (agent_flags m) /\ g_key g = k
          /\ (forall g', In g' (agent_flags m) -> g_key g' = k -> g' = g)
          /\ g_sum rule g
             = Z.of_nat
                 (List.length
                    (filter (flag rule)
                       (filter (in_group master_Agent k) m))))
  /\ (forall g, In g (agent_flags m) ->
        exists r, In r m /\ master_Agent r = Some (g_key g)).
Proof.
  split; [intros k; apply flag_group_exact |].
  split; [intros g Hg; apply In_groupby_sum in Hg;
          now apply In_group_keys |].
  split; [intros k; apply flag_group_exact |].
  intros g Hg. apply In_groupby_sum in Hg. now apply In_group_keys.
Qed.

Lemma hospital_agent_rollup_counts_witness :
  exists g,
    In g (hospital_flags ex_master) /\ g_key g = "H2"%string
    /\ g_sum manydoctors g = 1.
Proof.
  destruct (proj1 (hospital_agent_rollup_counts ex_master manydoctors)
              "H2"%string)
    as (g & Hg & Hk & _ & Hsum).
  - exists ex_row_C2. split; [| reflexivity].
    rewrite ex_master_rows. simpl. auto.
  - exists g. split; [exact Hg |]. split; [exact Hk |].
    rewrite Hsum. vm_compute. reflexivity.
Defined.

Lemma flag_columns_total (l : list MasterRow) :
  sumZ (map (fun x => nansum (map (fun r => Some (flag x r)) l)) rule_flags)
  = sumZ (map flags_of_row l).
Proof.
  induction l as [| r t IH]; [reflexivity |].
  cbn [map]. rewrite sumZ_cons, <- IH.
  unfold flags_of_row, sumZ. cbn [rule_flags map fold_right].
  rewrite !nansum_cons. cbn [cell_value].
  destruct (flag many_diagnoses r), (flag shortstay_manydiag r),
    (flag longstay_onediag r), (flag manydoctors r), (flag age_missing r);
    lia.
Qed.

Lemma sumZ_bounded {A : Type} (w : A -> Z) (lo hi : Z) (l : list A) :
  (forall a, lo <= w a <= hi) ->
  lo * Z.of_nat (List.length l) <= sumZ (map w l)
  <= hi * Z.of_nat (List.length l).
Proof.
  intros Hw. induction l as [| a t IH]; [cbn; lia |].
  cbn [map List.length]. rewrite sumZ_cons.
  specialize (Hw a). lia.
Qed.

(** X11: in the per-hospital and per-agent rollups, [Total_Flags] of a
    group is the sum of its five rule counts, which is the number of
    flags carried by the group's rows; every rule count lies between 0
    and the number of rows of the group, and the total between 0 and
    four times that number. *)
Theorem Total_Flags_bounds (key : MasterRow -> option string)
  (m : list MasterRow) (g : FlagSums) :
  In g (groupby_sum key (fun x r => Some (flag x r)) m) ->
  Total_Flags g
  = g_sum many_diagnoses g + g_sum shortstay_manydiag g
    + g_sum longstay_onediag g + g_sum manydoctors g
    + g_sum age_missing g
  /\ Total_Flags g
     = sumZ (map flags_of_row (filter (in_group key (g_key g)) m))
  /\ (forall rule,
        0 <= g_sum rule g
        <= Z.of_nat (List.length (filter (in_group key (g_key g)) m)))
  /\ 0 <= Total_Flags g
     <= 4 * Z.of_nat (List.length (filter (in_group key (g_key g)) m)).
Proof.
  intros Hg.
  assert (Hsum : forall rule,
             g_sum rule g
             = Z.of_nat
                 (List.length
                    (filter (flag rule)
                       (filter (in_group key (g_key g)) m)))).
  { intros rule. rewrite (g_sum_groupby_sum _ _ _ g rule Hg).
    apply nansum_flags. }
  assert (Htot : Total_Flags g
                 = sumZ (map flags_of_row
                           (filter (in_group key (g_key g)) m))).
  { apply In_groupby_sum in Hg. destruct Hg as [_ Hs].
    unfold Total_Flags. rewrite Hs. apply flag_columns_total. }
  split; [| split; [exact Htot | split]].
  - pose proof Hg as Hg'. apply In_groupby_sum in Hg'.
    destruct Hg' as [_ Hs].
    unfold Total_Flags, g_sum. rewrite Hs.
    cbn [rule_flags map fold_right rule_index nth]. lia.
  - intros rule. rewrite Hsum.
    pose proof (filter_length_le (flag rule)
                  (filter (in_group key (g_key g)) m)).
    lia.
  - rewrite Htot.
    pose proof (sumZ_bounded flags_of_row 0 4
                  (filter (in_group key (g_key g)) m) flags_of_row_range).
    lia.
Qed.

Lemma Total_Flags_bounds_witness :
  Total_Flags {| g_key := "H2"; g_sums := [1; 0; 0; 1; 1] |} = 3
  /\ 0 <= Total_Flags {| g_key := "H2"; g_sums := [1; 0; 0; 1; 1] |} <= 8.
Proof.
  destruct (Total_Flags_bounds master_Hospital_ID ex_master
              {| g_key := "H2"; g_sums := [1; 0; 0; 1; 1] |})
    as (Hfive & _ & _ & Hrange).
  - vm_compute. auto.
  - split; [rewrite Hfive; reflexivity | exact Hrange].
Defined.

(** *** Doctors without a usable key or claim *)

Lemma groupby_sum_null_rows {A : Type} (key : A -> option string)
  (col : Rule -> A -> option bool) (l1 mid l2 : list A) :
  (forall a, In a mid -> key a = None) ->
  groupby_sum key col (l1 ++ mid ++ l2) = groupby_sum key col (l1 ++ l2).
Proof.
  induction mid as [| a t IH]; intros Hnull; [reflexivity |].
  cbn [app].
  rewrite (groupby_sum_null_row key col l1 (t ++ l2) a)
    by (apply Hnull; now left).
  apply IH. intros b Hb. apply Hnull. now right.
Qed.

Lemma merge_left_app {L R : Type} (kl : L -> option string)
  (kr : R -> option string) (l1 l2 : list L) (right : list R) :
  merge_left kl kr (l1 ++ l2) right
  = (merge_left kl kr l1 right ++ merge_left kl kr l2 right)%list.
Proof. unfold merge_left. apply flat_map_app. Qed.

Lemma merge_left_single_fst {L R : Type} (kl : L -> option string)
  (kr : R -> option string) (l : L) (right : list R)
  (x : L * option R) :
  In x (merge_left kl kr [l] right) -> fst x = l.
Proof.
  destruct x as [l' o]. intros Hin. apply In_merge_left in Hin.
  destruct Hin as [[<- | []] _]. reflexivity.
Qed.

Lemma flagged_matches_unmatched (rule : Rule) (m : list MasterRow)
  (a : ClaimDoctorRow) :
  matches m a = [] -> flagged_matches rule m a = 0.
Proof. unfold flagged_matches. intros ->. reflexivity. Qed.

Lemma sumZ_zero {A : Type} (w : A -> Z) (l : list A) :
  (forall a, In a l -> w a = 0) -> sumZ (map w l) = 0.
Proof.
  induction l as [| a t IH]; intros Hw; [reflexivity |].
  cbn [map]. rewrite sumZ_cons, (Hw a (or_introl eq_refl)), IH; [lia |].
  intros b Hb. apply Hw. now right.
Qed.

(** X12: an assignment with a null Doctor ID is counted in no row of
    the doctor rollup; a doctor whose assignments all name claims that
    are not in [master] still has a row, with every count and the
    total equal to 0. *)
Theorem doctor_rollup_edges (m : list MasterRow) :
  (forall l1 l2 a,
      Doctor_ID a = None ->
      doctor_flags_sum (l1 ++ a :: l2) m = doctor_flags_sum (l1 ++ l2) m)
  /\ (forall claim_doctor d,
        (exists a, In a claim_doctor /\ Doctor_ID a = Some d) ->
        (forall a, In a claim_doctor -> Doctor_ID a = Some d ->
                   matches m a = []) ->
        exists g,
          In g (doctor_flags_sum claim_doctor m) /\ g_key g = d
          /\ (forall rule, g_sum rule g = 0)
          /\ Total_Flags g = 0).
Proof.
  split.
  - intros l1 l2 a Ha. unfold doctor_flags_sum, doctor_flags.
    change (a :: l2) with ([a] ++ l2)%list.
    rewrite !merge_left_app.
    apply groupby_sum_null_rows.
    intros x Hx. apply merge_left_single_fst in Hx. now rewrite Hx.
  - intros claim_doctor d Hd Hun.
    apply (doctor_group_keys claim_doctor m d) in Hd.
    pose (g := {| g_key := d;
                  g_sums :=
                    map (fun x =>
                           nansum
                             (map (joined_flag x)
                                (filter
                                   (in_group (fun y => Doctor_ID (fst y)) d)
                                   (doctor_flags claim_doctor m))))
                      rule_flags |}).
    assert (Hzero : forall rule,
               nansum
                 (map (joined_flag rule)
                    (filter (in_group (fun y => Doctor_ID (fst y)) d)
                       (doctor_flags claim_doctor m))) = 0).
    { intros rule. unfold in_group, doctor_flags.
      rewrite (filter_merge_left_fst cd_Claim_ID master_Claim_ID
                 (fun a => key_eqb (Doctor_ID a) (Some d))).
      fold (doctor_flags
              (filter (fun a => key_eqb (Doctor_ID a) (Some d)) claim_doctor)
              m).
      rewrite nansum_doctor_flags. apply sumZ_zero.
      intros a Ha. apply filter_In in Ha. destruct Ha as [Hin Hk].
      apply key_eqb_eq in Hk.
      apply flagged_matches_unmatched, Hun; assumption. }
    exists g. split; [| split; [reflexivity | split]].
    + apply In_groupby_sum. split; [exact Hd | reflexivity].
    + intros rule. unfold g_sum. cbn [g_sums g].
      rewrite (nth_rule_flags
                 (fun x =>
                    nansum
                      (map (joined_flag x)
                         (filter (in_group (fun y => Doctor_ID (fst y)) d)
                            (doctor_flags claim_doctor m))))
                 rule 0).
      apply Hzero.
    + unfold Total_Flags. cbn [g_sums g rule_flags map fold_right].
      rewrite !Hzero. reflexivity.
Qed.

Lemma doctor_rollup_edges_witness :
  doctor_flags_sum
    (ex_claim_doctor
       ++ [{| cd_Claim_ID := Some "C1"%string; Doctor_ID := None |}])
    ex_master
  = doctor_flags_sum ex_claim_doctor ex_master
  /\ exists g,
      In g (doctor_flags_sum
              [{| cd_Claim_ID := Some "C7"%string;
                  Doctor_ID := Some "D9"%string |}] ex_master)
      /\ g_key g = "D9"%string
      /\ (forall rule, g_sum rule g = 0)
      /\ Total_Flags g = 0.
Proof.
  split.
  - rewrite <- (app_nil_r ex_claim_doctor) at 2.
    apply (proj1 (doctor_rollup_edges ex_master)). reflexivity.
  - apply (proj2 (doctor_rollup_edges ex_master)).
    + eexists. split; [left; reflexivity | reflexivity].
    + intros a [<- | []] _. vm_compute. reflexivity.
Defined.

(** ** Per-rule lists *)

Lemma existsb_key_In (x : option string) (seen : list (option string)) :
  existsb (key_eqb x) seen = true <-> In x seen.
Proof.
  rewrite existsb_exists. split.
  - intros (y & Hy & Hk). apply key_eqb_eq in Hk. now subst.
  - intros Hx. exists x. split; [exact Hx | apply key_eqb_refl].
Qed.

Lemma In_unique_from (x : option string) (l seen : list (option string)) :
  In x (unique_from seen l) <-> In x l /\ ~ In x seen.
Proof.
  revert seen. induction l as [| y t IH]; intros seen; cbn [unique_from].
  - split; [intros [] | intros [[] _]].
  - destruct (existsb (key_eqb y) seen) eqn:E.
    + apply existsb_key_In in E. rewrite IH. split.
      * intros [Hin Hns]. split; [now right | exact Hns].
      * intros [[-> | Hin] Hns]; [contradiction | auto].
    + assert (Hy : ~ In y seen).
      { intros Hin. apply existsb_key_In in Hin. congruence. }
      cbn [In]. rewrite IH. cbn [In]. split.
      * intros [<- | [Hin Hns]]; [auto |]. split; [now right | tauto].
      * intros [[<- | Hin] Hns]; [now left |].
        destruct (key_eqb y x) eqn:Ek.
        -- apply key_eqb_eq in Ek. now left.
        -- right. split; [exact Hin |].
           intros [-> | Hs]; [| contradiction].
           rewrite key_eqb_refl in Ek. discriminate.
Qed.

Lemma unique_from_NoDup (l seen : list (option string)) :
  NoDup (unique_from seen l).
Proof.
  revert seen. induction l as [| y t IH]; intros seen; cbn [unique_from].
  - constructor.
  - destruct (existsb (key_eqb y) seen); [apply IH |].
    constructor; [| apply IH].
    rewrite In_unique_from. intros [_ Hns]. apply Hns. now left.
Qed.

Lemma unique_from_length (l seen : list (option string)) :
  (List.length (unique_from seen l) <= List.length l)%nat.
Proof.
  revert seen. induction l as [| y t IH]; intros seen; cbn [unique_from].
  - apply Nat.le_refl.
  - destruct (existsb (key_eqb y) seen); cbn [List.length].
    + specialize (IH seen). lia.
    + specialize (IH (y :: seen)). lia.
Qed.

Lemma In_unique (x : option string) (l : list (option string)) :
  In x (unique l) <-> In x l.
Proof. unfold unique. rewrite In_unique_from. cbn [In]. tauto. Qed.

Lemma flagged_key_listed (key : MasterRow -> option string)
  (m : list MasterRow) (rule : Rule) (h : option string) :
  In h (unique (map key (filter (flag rule) m)))
  <-> exists r, In r m /\ flag rule r = true /\ key r = h.
Proof.
  rewrite In_unique, in_map_iff. split.
  - intros (r & Hk & Hr). apply filter_In in Hr. exists r. tauto.
  - intros (r & Hin & Hf & Hk). exists r.
    split; [exact Hk | apply filter_In; auto].
Qed.

Lemma flagged_key_positive (key : MasterRow -> option string)
  (m : list MasterRow) (rule : Rule) (k : string) :
  In (Some k) (unique (map key (filter (flag rule) m)))
  <-> exists g,
      In g (groupby_sum key (fun x r => Some (flag x r)) m)
      /\ g_key g = k /\ 0 < g_sum rule g.
Proof.
  rewrite flagged_key_listed. split.
  - intros (r & Hin & Hf & Hk).
    destruct (flag_group_exact key m k rule) as (g & Hg & Hgk & _ & Hsum);
      [eauto |].
    exists g. split; [exact Hg |]. split; [exact Hgk |].
    rewrite Hsum.
    assert (Hr : In r (filter (flag rule) (filter (in_group key k) m))).
    { apply filter_In. split; [| exact Hf].
      apply filter_In. split; [exact Hin |].
      unfold in_group. rewrite Hk. apply key_eqb_refl. }
    destruct (filter (flag rule) (filter (in_group key k) m));
      [destruct Hr | cbn [List.length]; lia].
  - intros (g & Hg & <- & Hpos).
    rewrite (g_sum_groupby_sum _ _ _ g rule Hg), nansum_flags in Hpos.
    destruct (filter (flag rule) (filter (in_group key (g_key g)) m))
      as [| r t] eqn:E; [cbn in Hpos; lia |].
    assert (Hr : In r (filter (flag rule)
                         (filter (in_group key (g_key g)) m)))
      by (rewrite E; now left).
    apply filter_In in Hr. destruct Hr as [Hr Hf].
    apply filter_In in Hr. destruct Hr as [Hin Hk].
    unfold in_group in Hk. apply key_eqb_eq in Hk. eauto.
Qed.

(** X13: for every rule, [hospitals_per_rule] lists without repetition
    exactly the Hospital ID values (null included) of the flagged
    rows, and a non-null hospital is listed exactly when its rollup
    row has a positive count for the rule; the same holds for
    [agents_per_rule] and the agent rollup; [doctors_per_rule] has one
    entry per listed claim, and the hospital list is never longer than
    the claim list. *)
Theorem per_rule_lists (m : list MasterRow) (rule : Rule) :
  (NoDup (hospitals_per_rule rule m)
   /\ (forall h, In h (hospitals_per_rule rule m)
                 <-> exists r, In r m /\ flag rule r = true
                               /\ master_Hospital_ID r = h)
   /\ (forall k, In (Some k) (hospitals_per_rule rule m)
                 <-> exists g, In g (hospital_flags m)
                               /\ g_key g = k /\ 0 < g_sum rule g))
  /\ (NoDup (agents_per_rule rule m)
      /\ (forall a, In a (agents_per_rule rule m)
                    <-> exists r, In r m /\ flag rule r = true
                                  /\ master_Agent r = a)
      /\ (forall k, In (Some k) (agents_per_rule rule m)
                    <-> exists g, In g (agent_flags m)
                                  /\ g_key g = k /\ 0 < g_sum rule g))
  /\ List.length (doctors_per_rule rule m)
     = List.length (claims_per_rule rule m)
  /\ (List.length (hospitals_per_rule rule m)
      <= List.length (claims_per_rule rule m))%nat.
Proof.
  unfold hospitals_per_rule, agents_per_rule, hospital_flags, agent_flags.
  split; [| split; [| split]].
  - split; [apply unique_from_NoDup |].
    split; [intros h; apply flagged_key_listed |].
    intros k. apply flagged_key_positive.
  - split; [apply unique_from_NoDup |].
    split; [intros h; apply flagged_key_listed |].
    intros k. apply flagged_key_positive.
  - unfold doctors_per_rule, claims_per_rule. now rewrite !length_map.
  - unfold claims_per_rule, unique.
    eapply Nat.le_trans; [apply unique_from_length |].
    now rewrite !length_map.
Qed.

(** ** Ranking, continued *)

(** X14: whatever ranking the sort returns, the retained rows are all
    of the rollup, rearranged, when it has at most ten rows; they are
    empty only for an empty rollup; and the first retained row is a
    row of the rollup with the largest total. *)
Theorem top_ranked_first_is_max (frame top : list FlagSums) :
  top_ranked frame top ->
  ((List.length frame <= 10)%nat -> Permutation frame top)
  /\ (top = [] -> frame = [])
  /\ (forall first rest,
        top = first :: rest ->
        In first frame
        /\ forall g, In g frame -> Total_Flags g <= Total_Flags first).
Proof.
  intros (sorted & [Hperm Hdesc] & ->). unfold head.
  split; [| split].
  - intros Hlen. rewrite firstn_all2; [exact Hperm |].
    rewrite <- (Permutation_length Hperm). exact Hlen.
  - intros Hnil. destruct sorted as [| x t]; [| discriminate Hnil].
    apply Permutation_sym, Permutation_nil in Hperm. exact Hperm.
  - intros first rest Htop.
    destruct sorted as [| x t]; [discriminate Htop |].
    cbn [firstn] in Htop. injection Htop as <- _.
    split.
    + apply (Permutation_in _ (Permutation_sym Hperm)). now left.
    + intros g Hg. apply (Permutation_in _ Hperm) in Hg.
      destruct Hg as [<- | Hg]; [lia |].
      inversion Hdesc as [| ? ? _ Hall]; subst.
      rewrite Forall_forall in Hall. apply Hall, Hg.
Qed.

Lemma top_ranked_first_is_max_witness :
  In ex_sums_D2 [ex_sums_D1; ex_sums_D2; ex_sums_D3]
  /\ forall g, In g [ex_sums_D1; ex_sums_D2; ex_sums_D3] ->
               Total_Flags g <= Total_Flags ex_sums_D2.
Proof.
  assert (Htop : top_ranked [ex_sums_D1; ex_sums_D2; ex_sums_D3]
                   [ex_sums_D2; ex_sums_D1; ex_sums_D3]).
  { exists [ex_sums_D2; ex_sums_D1; ex_sums_D3].
    split; [| reflexivity]. split; [apply perm_swap |].
    repeat constructor; vm_compute; discriminate. }
  exact (proj2 (proj2 (top_ranked_first_is_max _ _ Htop))
           ex_sums_D2 [ex_sums_D1; ex_sums_D3] eq_refl).
Defined.

(** ** Specialty normalisation, continued *)

Lemma replace_synonyms_not_variant (y : str) :
  replace specialty_synonyms y <> of_string "Pediatrician"
  /\ replace specialty_synonyms y <> of_string "Paediatrics".
Proof.
  unfold specialty_synonyms. cbn [replace].
  destruct (str_eqb y (of_string "Paediatrician")) eqn:E1;
    [split; vm_compute; discriminate |].
  destruct (str_eqb y (of_string "Pediatrician")) eqn:E2;
    [split; vm_compute; discriminate |].
  destruct (str_eqb y (of_string "Paediatrics")) eqn:E3;
    [split; vm_compute; discriminate |].
  split; intros ->.
  - rewrite (proj2 (str_eqb_eq _ _) eq_refl) in E2. discriminate.
  - rewrite (proj2 (str_eqb_eq _ _) eq_refl) in E3. discriminate.
Qed.

(** X15: a normalised specialty is never one of the two variant
    spellings "Pediatrician" and "Paediatrics", whatever the input;
    for ASCII input it is an ASCII string without leading or trailing
    whitespace that title-casing leaves unchanged. *)
Theorem Specialty_canonical (s out : str) :
  Specialty (Some s) = Some out ->
  out <> of_string "Pediatrician"
  /\ out <> of_string "Paediatrics"
  /\ (ascii_str s ->
      ascii_str out /\ strip out = out /\ title out = out).
Proof.
  intros H.
  assert (Hout : out = replace specialty_synonyms (title (strip s)))
    by (unfold Specialty in H; congruence).
  clear H. subst out.
  split; [apply replace_synonyms_not_variant |].
  split; [apply replace_synonyms_not_variant |].
  intros Hs.
  destruct (replace_synonyms_cases (title (strip s))) as [-> | ->].
  - split; [unfold ascii_str; repeat constructor |].
    split; vm_compute; reflexivity.
  - split; [apply title_from_ascii, strip_ascii, Hs |].
    split; [apply strip_title_strip, Hs |].
    unfold title. apply title_from_idempotent, strip_ascii, Hs.
Qed.

Lemma Specialty_canonical_witness :
  of_string "Paediatrician" <> of_string "Pediatrician"
  /\ of_string "Paediatrician" <> of_string "Paediatrics"
  /\ (ascii_str (of_string " PEDIATRICIAN") ->
      ascii_str (of_string "Paediatrician")
      /\ strip (of_string "Paediatrician") = of_string "Paediatrician"
      /\ title (of_string "Paediatrician") = of_string "Paediatrician").
Proof.
  apply (Specialty_canonical (of_string " PEDIATRICIAN")). reflexivity.
Defined.

Lemma lower_char_ascii (c : N) :
  (c < 128)%N ->
  is_cased (lower_ascii c) = is_cased c
  /\ forall b, title_char b (lower_ascii c) = title_char b c.
Proof.
  intros H. apply ascii_enumerated in H.
  assert (Hall : forallb lower_char_ok (map N.of_nat (seq 0 128)) = true)
    by (vm_compute; reflexivity).
  rewrite forallb_forall in Hall. specialize (Hall c H).
  unfold lower_char_ok in Hall. apply andb_true_iff in Hall.
  destruct Hall as [Hc Ht]. split; [now apply Bool.eqb_prop |].
  intros b. rewrite forallb_forall in Ht. apply str_eqb_eq, Ht.
  destruct b; simpl; auto.
Qed.

Lemma title_from_lower (s : str) :
  ascii_str s ->
  forall b, title_from b (map lower_ascii s) = title_from b s.
Proof.
  induction 1 as [| c t Hc Ht IH]; intros b; [reflexivity |].
  cbn [map]. rewrite !title_from_cons.
  destruct (lower_char_ascii c Hc) as [Hcased Htitle].
  rewrite Htitle, Hcased, IH. reflexivity.
Qed.

Lemma lstrip_all_space (l : str) : all_space l -> lstrip l = [].
Proof.
  induction 1 as [| c t Hc Ht IH]; [reflexivity |].
  cbn [lstrip]. now rewrite Hc.
Qed.

Lemma lstrip_padding (l s : str) :
  all_space l -> lstrip (l ++ s) = lstrip s.
Proof.
  induction 1 as [| c t Hc Ht IH]; [reflexivity |].
  cbn [app lstrip]. now rewrite Hc.
Qed.

Lemma rstrip_all_space (r : str) : all_space r -> rstrip r = [].
Proof.
  induction 1 as [| c t Hc Ht IH]; [reflexivity |].
  cbn [rstrip]. now rewrite IH, Hc.
Qed.

Lemma rstrip_padding (s r : str) :
  all_space r -> rstrip (s ++ r) = rstrip s.
Proof.
  intros Hr. induction s as [| c t IH].
  - cbn [app]. now rewrite rstrip_all_space.
  - cbn [app rstrip]. now rewrite IH.
Qed.

Lemma strip_padding (l s r : str) :
  all_space l -> all_space r -> strip (l ++ s ++ r) = strip s.
Proof.
  intros Hl Hr. unfold strip. rewrite (lstrip_padding l _ Hl).
  induction s as [| c t IH].
  - cbn [app]. now rewrite (lstrip_all_space r Hr).
  - cbn [app lstrip]. destruct (is_space c); [exact IH |].
    exact (rstrip_padding (c :: t) r Hr).
Qed.

(** X16: normalisation ignores surrounding whitespace and, on ASCII
    input, letter case: padding a specialty with whitespace on either
    side does not change the result, and two ASCII specialties that
    agree after trimming and lowercasing normalise to the same
    value. *)
Theorem Specialty_ignores_case_and_padding :
  (forall l s r,
      all_space l -> all_space r ->
      Specialty (Some (l ++ s ++ r)) = Specialty (Some s))
  /\ (forall s1 s2,
        ascii_str s1 -> ascii_str s2 ->
        map lower_ascii (strip s1) = map lower_ascii (strip s2) ->
        Specialty (Some s1) = Specialty (Some s2)).
Proof.
  split.
  - intros l s r Hl Hr. unfold Specialty.
    now rewrite (strip_padding l s r Hl Hr).
  - intros s1 s2 H1 H2 Heq. unfold Specialty, title.
    rewrite <- (title_from_lower (strip s1) (strip_ascii s1 H1) false).
    rewrite <- (title_from_lower (strip s2) (strip_ascii s2 H2) false).
    now rewrite Heq.
Qed.

Lemma Specialty_ignores_case_and_padding_witness :
  Specialty (Some (of_string "  " ++ of_string "cardiology" ++ [9; 10]%N))
  = Specialty (Some (of_string "cardiology"))
  /\ Specialty (Some (of_string "PAEDIATRICS "))
     = Specialty (Some (of_string " paediatrics")).
Proof.
  split.
  - apply (proj1 Specialty_ignores_case_and_padding);
      unfold all_space; repeat constructor.
  - apply (proj2 Specialty_ignores_case_and_padding);
      [unfold ascii_str; repeat constructor
      | unfold ascii_str; repeat constructor
      | reflexivity].
Defined.

(** ** From the child tables to the flags *)

Lemma filter_no_key {A : Type} (key : A -> option string) (k : string)
  (rows : list A) :
  (forall a, In a rows -> key a <> Some k) ->
  filter (fun a => key_eqb (key a) (Some k)) rows = [].
Proof.
  intros Hno. induction rows as [| a t IH]; [reflexivity |].
  cbn [filter]. destruct (key_eqb (key a) (Some k)) eqn:E.
  - apply key_eqb_eq in E. exfalso. exact (Hno a (or_introl eq_refl) E).
  - apply IH. intros b Hb. apply Hno. now right.
Qed.

Lemma joined_count_gt {A B : Type} (key : A -> option string)
  (col : A -> option B) (rows : list A) (k : option string)
  (o : option CountRow) (bound : Z) :
  0 <= bound ->
  joined k count_key (groupby_count key col rows) o ->
  (series_gt (option_map cnt_value o) bound = true
   <-> (exists k', k = Some k')
       /\ bound
          < Z.of_nat
              (List.length
                 (filter (fun a => notna (col a))
                    (filter (fun a => key_eqb (key a) k) rows)))).
Proof.
  intros Hb Hj. destruct o as [row |].
  - apply joined_count_some in Hj. destruct Hj as (Hk & _ & Hv).
    cbn [option_map series_gt]. rewrite Hv, Z.ltb_lt. split.
    + intros Hlt. split; [eauto | exact Hlt].
    + intros [_ Hlt]. exact Hlt.
  - cbn [option_map series_gt]. split; [discriminate |].
    intros [(k' & ->) Hlt].
    rewrite (filter_no_key key k' rows (joined_count_none _ _ _ _ Hj))
      in Hlt.
    cbn in Hlt. lia.
Qed.

Section CountRules.

Variable claim_basic : list ClaimRow.
Variable claim_diagnosis : list DiagnosisRow.
Variable claim_doctor : list ClaimDoctorRow.
Variable policy_info : list PolicyRow.
Variable hospital_info : list HospitalRow.

(** X17: end to end, a row of [master] is flagged [many_diagnoses]
    exactly when its claim has a Claim ID and more than three rows of
    [claim_diagnosis] carry that ID with a non-null Diagnosis, and it
    is flagged [manydoctors] exactly when its claim has a Claim ID and
    more than two rows of [claim_doctor] carry that ID with a non-null
    Doctor ID. *)
Theorem count_rules_end_to_end (r : MasterRow) :
  In r (master claim_basic claim_diagnosis claim_doctor policy_info
          hospital_info) ->
  (flag_many_diagnoses r = true <->
   (exists k, master_Claim_ID r = Some k)
   /\ 3 < Z.of_nat
           (List.length
              (filter (fun d => notna (Diagnosis d))
                 (filter
                    (fun d => key_eqb (d_Claim_ID d) (master_Claim_ID r))
                    claim_diagnosis))))
  /\ (flag_manydoctors r = true <->
      (exists k, master_Claim_ID r = Some k)
      /\ 2 < Z.of_nat
              (List.length
                 (filter (fun a => notna (Doctor_ID a))
                    (filter
                       (fun a => key_eqb (cd_Claim_ID a) (master_Claim_ID r))
                       claim_doctor)))).
Proof.
  intros Hr. apply In_master in Hr.
  destruct Hr as (c & dc & dr & p & h & -> & _ & Hdc & Hdr & _ & _).
  unfold flag_many_diagnoses, flag_manydoctors, master_Claim_ID.
  rewrite (master_get_present "Num_Diagnoses" 0 Num_Diagnoses _ eq_refl).
  rewrite (master_get_present "Num_Doctors" 0 Num_Doctors _ eq_refl).
  cbn [claim Num_Diagnoses Num_Doctors].
  split.
  - apply (joined_count_gt d_Claim_ID Diagnosis claim_diagnosis); [lia |].
    exact Hdc.
  - apply (joined_count_gt cd_Claim_ID Doctor_ID claim_doctor); [lia |].
    exact Hdr.
Qed.

End CountRules.

Lemma count_rules_end_to_end_witness :
  flag_many_diagnoses ex_row_C2 = true /\ flag_manydoctors ex_row_C2 = true.
Proof.
  destruct (count_rules_end_to_end ex_claim_basic ex_claim_diagnosis
              ex_claim_doctor ex_policy_info ex_hospital_info ex_row_C2)
    as [Hd Ha].
  - vm_compute. auto.
  - split.
    + apply Hd. split; [eexists; reflexivity | vm_compute; reflexivity].
    + apply Ha. split; [eexists; reflexivity | vm_compute; reflexivity].
Defined.

(** ** The doctor rollup over [master] *)

Lemma master_claims (claim_basic : list ClaimRow)
  (claim_diagnosis : list DiagnosisRow) (claim_doctor : list ClaimDoctorRow)
  (policy_info : list PolicyRow) (hospital_info : list HospitalRow) :
  NoDup (map Policy_ID policy_info) ->
  NoDup (map Hospital_ID hospital_info) ->
  map claim
    (master claim_basic claim_diagnosis claim_doctor policy_info
       hospital_info)
  = claim_basic.
Proof.
  intros Hp Hh. unfold master. rewrite map_map.
  rewrite (map_ext _ (fun x => fst (fst (fst (fst x)))))
    by (intros [[[[c dc] dr] p] h]; reflexivity).
  rewrite <- (map_map fst (fun x => fst (fst (fst x)))).
  rewrite (merge_left_fst _ Hospital_ID _ hospital_info Hh).
  rewrite <- (map_map fst (fun x => fst (fst x))).
  rewrite (merge_left_fst _ Policy_ID _ policy_info Hp).
  rewrite <- (map_map fst fst).
  rewrite (merge_left_fst _ count_key _ _
             (groupby_count_unique cd_Claim_ID Doctor_ID claim_doctor)).
  apply (merge_left_fst _ count_key _ _
           (groupby_count_unique d_Claim_ID Diagnosis claim_diagnosis)).
Qed.

Lemma master_Claim_ID_key (claim_basic : list ClaimRow)
  (claim_diagnosis : list DiagnosisRow) (claim_doctor : list ClaimDoctorRow)
  (policy_info : list PolicyRow) (hospital_info : list HospitalRow) :
  NoDup (map Claim_ID claim_basic) ->
  NoDup (map Policy_ID policy_info) ->
  NoDup (map Hospital_ID hospital_info) ->
  NoDup
    (map master_Claim_ID
       (master claim_basic claim_diagnosis claim_doctor policy_info
          hospital_info)).
Proof.
  intros Hc Hp Hh.
  rewrite <- (map_map claim Claim_ID).
  now rewrite (master_claims _ claim_diagnosis claim_doctor _ _ Hp Hh).
Qed.

Section DoctorRollup.

Variable claim_basic : list ClaimRow.
Variable claim_diagnosis : list DiagnosisRow.
Variable claim_doctor : list ClaimDoctorRow.
Variable policy_info : list PolicyRow.
Variable hospital_info : list HospitalRow.

(** C7 (as the code has it): the doctor rollup is taken over the left
    merge of [claim_doctor] with the flag columns of [master] on Claim
    ID, then summed per Doctor ID.  A doctor with at least one
    assignment has exactly one row in it, and for every rule that
    row's count is the number of joined pairs of one of the doctor's
    assignments (repeated ones included) with a master row of the
    same Claim ID that has the flag true.  When Claim ID is unique in
    [claim_basic], Policy ID in [policy_info] and Hospital ID in
    [hospital_info], each assignment joins at most one master row and
    the count is the number of the doctor's assignments whose claim
    has the flag true. *)
Theorem doctor_rollup_fan_out (d : string) (rule : Rule) :
  (exists a, In a claim_doctor /\ Doctor_ID a = Some d) ->
  exists g,
    In g (doctor_flags_sum claim_doctor
            (master claim_basic claim_diagnosis claim_doctor policy_info
               hospital_info))
    /\ g_key g = d
    /\ (forall g',
          In g' (doctor_flags_sum claim_doctor
                   (master claim_basic claim_diagnosis claim_doctor
                      policy_info hospital_info)) ->
          g_key g' = d -> g' = g)
    /\ g_sum rule g
       = sumZ
           (map
              (flagged_matches rule
                 (master claim_basic claim_diagnosis claim_doctor
                    policy_info hospital_info))
              (assignments_of d claim_doctor))
    /\ (NoDup (map Claim_ID claim_basic) ->
        NoDup (map Policy_ID policy_info) ->
        NoDup (map Hospital_ID hospital_info) ->
        g_sum rule g
        = Z.of_nat
            (List.length
               (filter
                  (flagged_claim rule
                     (master claim_basic claim_diagnosis claim_doctor
                        policy_info hospital_info))
                  (assignments_of d claim_doctor)))).
Proof.
  intros Hd.
  destruct (doctor_rollup_counts claim_doctor
              (master claim_basic claim_diagnosis claim_doctor policy_info
                 hospital_info) d rule Hd)
    as (g & Hg & Hk & Huniq & Hsum & Hcount).
  exists g. split; [exact Hg |]. split; [exact Hk |].
  split; [exact Huniq |]. split; [exact Hsum |].
  intros Hc Hp Hh. apply Hcount.
  now apply master_Claim_ID_key.
Qed.

End DoctorRollup.

Lemma doctor_rollup_fan_out_witness :
  exists g,
    In g (doctor_flags_sum ex_claim_doctor ex_master)
    /\ g_key g = "D1"%string
    /\ g_sum longstay_onediag g = 1.
Proof.
  destruct (doctor_rollup_fan_out ex_claim_basic ex_claim_diagnosis
              ex_claim_doctor ex_policy_info ex_hospital_info
              "D1" longstay_onediag)
    as (g & Hg & Hk & _ & _ & Hcount).
  - exists {| cd_Claim_ID := Some "C1"%string;
              Doctor_ID := Some "D1"%string |}.
    split; [simpl; auto | reflexivity].
  - exists g. split; [exact Hg |]. split; [exact Hk |].
    rewrite Hcount.
    + vm_compute. reflexivity.
    + repeat constructor; simpl; intuition discriminate.
    + repeat constructor; simpl; intuition discriminate.
    + repeat constructor; simpl; intuition discriminate.
Defined.

(** C7 refuted as stated: with claim C1 listed twice in [claim_basic],
    [master] has two rows for C1, both flagged [longstay_onediag];
    doctor D1 has one assignment to C1 and one to C2, so exactly one
    of D1's assignments has a flagged claim, yet D1's count for the
    rule is 2. *)
Lemma doctor_count_exceeds_flagged_assignments :
  List.length (filter (fun r => key_eqb (master_Claim_ID r) (Some "C1"%string))
                 ex_master_dup) = 2%nat
  /\ assignments_of "D1" ex_claim_doctor
     = [ {| cd_Claim_ID := Some "C1"%string; Doctor_ID := Some "D1"%string |};
         {| cd_Claim_ID := Some "C2"%string; Doctor_ID := Some "D1"%string |} ]
  /\ Z.of_nat
       (List.length
          (filter (flagged_claim longstay_onediag ex_master_dup)
             (assignments_of "D1" ex_claim_doctor))) = 1
  /\ exists g,
      In g (doctor_flags_sum ex_claim_doctor ex_master_dup)
      /\ g_key g = "D1"%string
      /\ g_sum longstay_onediag g = 2.
Proof.
  split; [vm_compute; reflexivity |].
  split; [vm_compute; reflexivity |].
  split; [vm_compute; reflexivity |].
  exists {| g_key := "D1"; g_sums := [1; 0; 2; 1; 1] |}.
  split; [vm_compute; auto | split; reflexivity].
Qed.

(** ** Specialty normalisation on either string backend *)

Lemma Specialty_python (raw : option str) :
  Specialty_with python_tables raw = Specialty raw.
Proof.
  destruct raw as [s |]; [| reflexivity].
  unfold Specialty_with, Specialty, title_with, title. do 2 f_equal.
  generalize false. induction (strip s) as [| c t IH]; intros b;
    [reflexivity |].
  cbn [title_from_with title_from]. now rewrite IH.
Qed.

Lemma stable_char_spec (T : CaseTables) (c : N) (b : bool) :
  stable_char T c = true ->
  exists x, title_char_with T b c = [x]
            /\ cased T x = cased T c /\ is_space x = is_space c
            /\ title_char_with T b x = [x].
Proof.
  unfold stable_char. rewrite forallb_forall. intros H.
  assert (Hb : In b [true; false]) by (destruct b; simpl; auto).
  specialize (H b Hb).
  destruct (title_char_with T b c) as [| x [| y l]]; try discriminate.
  rewrite !andb_true_iff in H. destruct H as [[Hc Hs] Ht].
  exists x. repeat split.
  - now apply Bool.eqb_prop.
  - now apply Bool.eqb_prop.
  - now apply str_eqb_eq.
Qed.

Lemma stable_char_intro (T : CaseTables) (c : N) :
  (forall b, exists x,
       title_char_with T b c = [x]
       /\ cased T x = cased T c /\ is_space x = is_space c
       /\ title_char_with T b x = [x]) ->
  stable_char T c = true.
Proof.
  intros H. unfold stable_char. apply forallb_forall. intros b _.
  destruct (H b) as (x & -> & Hc & Hs & Ht).
  rewrite Hc, Hs, Ht, !Bool.eqb_reflx. cbn [andb str_eqb].
  now rewrite N.eqb_refl.
Qed.

Lemma title_from_with_cons (T : CaseTables) (b : bool) (c : N) (t : str) :
  title_from_with T b (c :: t)
  = (title_char_with T b c ++ title_from_with T (cased T c) t)%list.
Proof. reflexivity. Qed.

Lemma title_from_with_idempotent (T : CaseTables) (s : str) :
  stable_str T s ->
  forall b, title_from_with T b (title_from_with T b s)
            = title_from_with T b s.
Proof.
  induction 1 as [| c t Hc Ht IH]; intros b; [reflexivity |].
  rewrite title_from_with_cons.
  destruct (stable_char_spec T c b Hc) as (x & -> & Hcased & _ & Hx).
  simpl app. rewrite title_from_with_cons, Hx, Hcased, IH. reflexivity.
Qed.

Lemma lstrip_Forall (P : N -> Prop) (s : str) :
  Forall P s -> Forall P (lstrip s).
Proof.
  induction 1 as [| c t Hc Ht IH]; simpl; [constructor |].
  destruct (is_space c); [exact IH | now constructor].
Qed.

Lemma rstrip_Forall (P : N -> Prop) (s : str) :
  Forall P s -> Forall P (rstrip s).
Proof.
  induction 1 as [| c t Hc Ht IH]; simpl; [constructor |].
  destruct (rstrip t) as [| h t'].
  - destruct (is_space c); constructor; [exact Hc | constructor].
  - now constructor.
Qed.

Lemma strip_stable (T : CaseTables) (s : str) :
  stable_str T s -> stable_str T (strip s).
Proof. intros H. apply rstrip_Forall, lstrip_Forall, H. Qed.

Lemma title_from_with_nil (T : CaseTables) (s : str) (b : bool) :
  stable_str T s -> title_from_with T b s = [] -> s = [].
Proof.
  intros Hs. destruct Hs as [| c t Hc Ht]; [reflexivity |].
  rewrite title_from_with_cons.
  destruct (stable_char_spec T c b Hc) as (x & -> & _). discriminate.
Qed.

Lemma title_from_with_lstrip_fixed (T : CaseTables) (s : str) (b : bool) :
  stable_str T s -> lstrip s = s ->
  lstrip (title_from_with T b s) = title_from_with T b s.
Proof.
  intros Hs Hfix. destruct Hs as [| c t Hc Ht]; [reflexivity |].
  apply lstrip_fixed_head in Hfix.
  rewrite title_from_with_cons.
  destruct (stable_char_spec T c b Hc) as (x & -> & _ & Hsp & _).
  simpl. rewrite Hsp, Hfix. reflexivity.
Qed.

Lemma title_from_with_rstrip_fixed (T : CaseTables) (s : str) :
  stable_str T s -> forall b, rstrip s = s ->
  rstrip (title_from_with T b s) = title_from_with T b s.
Proof.
  induction 1 as [| c t Hc Ht IH]; intros b Hfix; [reflexivity |].
  apply rstrip_fixed_tail in Hfix. destruct Hfix as [Ht' Hlast].
  rewrite title_from_with_cons.
  destruct (stable_char_spec T c b Hc) as (x & -> & _ & Hsp & _).
  simpl. rewrite (IH (cased T c) Ht').
  destruct (title_from_with T (cased T c) t) eqn:E; [| reflexivity].
  apply title_from_with_nil in E; [| exact Ht].
  rewrite Hsp, (Hlast E). reflexivity.
Qed.

Lemma strip_title_with_strip (T : CaseTables) (s : str) :
  stable_str T s ->
  strip (title_with T (strip s)) = title_with T (strip s).
Proof.
  intros Hs. unfold strip at 1, title_with.
  rewrite title_from_with_lstrip_fixed;
    [| apply strip_stable, Hs | apply strip_lstrip_fixed].
  apply title_from_with_rstrip_fixed;
    [apply strip_stable, Hs | apply strip_rstrip_fixed].
Qed.

Lemma title_char_with_ascii (T : CaseTables) (b : bool) (c : N) :
  ascii_exact T -> (c < 128)%N ->
  title_char_with T b c = title_char b c /\ cased T c = is_cased c.
Proof.
  intros HT Hc. destruct (HT c Hc) as (Hcased & Hl & Ht).
  split; [| exact Hcased].
  unfold title_char_with, title_char. now destruct b.
Qed.

Lemma title_from_with_ascii (T : CaseTables) (s : str) :
  ascii_exact T -> ascii_str s ->
  forall b, title_from_with T b s = title_from b s.
Proof.
  intros HT. induction 1 as [| c t Hc Ht IH]; intros b; [reflexivity |].
  rewrite title_from_with_cons, title_from_cons.
  destruct (title_char_with_ascii T b c HT Hc) as [-> ->].
  now rewrite IH.
Qed.

Lemma ascii_stable (T : CaseTables) (s : str) :
  ascii_exact T -> ascii_str s -> stable_str T s.
Proof.
  intros HT. induction 1 as [| c t Hc Ht IH]; constructor; [| exact IH].
  apply stable_char_intro. intros b.
  destruct (title_char_ascii b c Hc) as (x & Hx & Hlt & Hcased & Hsp & Hxx).
  destruct (title_char_with_ascii T b c HT Hc) as [Hbc Hcc].
  destruct (title_char_with_ascii T b x HT Hlt) as [Hbx Hcx].
  exists x. rewrite Hbc, Hbx, Hcc, Hcx. auto.
Qed.

Lemma Specialty_with_canonical (T : CaseTables) :
  ascii_exact T ->
  Specialty_with T (Some (of_string "Paediatrician"))
  = Some (of_string "Paediatrician").
Proof.
  intros HT. unfold Specialty_with, title_with.
  rewrite (title_from_with_ascii T _ HT)
    by (apply strip_ascii; unfold ascii_str; repeat constructor).
  vm_compute. reflexivity.
Qed.

Lemma Specialty_with_idempotent (T : CaseTables) (s : str) :
  ascii_exact T -> stable_str T s ->
  Specialty_with T (Specialty_with T (Some s)) = Specialty_with T (Some s).
Proof.
  intros HT Hs. unfold Specialty_with at 2 3.
  destruct (replace_synonyms_cases (title_with T (strip s))) as [E | E];
    rewrite E.
  - now apply Specialty_with_canonical.
  - unfold Specialty_with.
    rewrite (strip_title_with_strip T s Hs).
    unfold title_with at 1 2.
    rewrite title_from_with_idempotent by (apply strip_stable, Hs).
    fold (title_with T (strip s)). rewrite E. reflexivity.
Qed.

Lemma python_tables_ascii : ascii_exact python_tables.
Proof. intros c _. repeat split. Qed.

Lemma arrow_tables_ascii : ascii_exact arrow_tables.
Proof.
  intros c Hc. cbn [arrow_tables cased lower_of title_of].
  repeat split.
  destruct (N.eqb_spec c 304) as [-> |]; [| reflexivity].
  exfalso. revert Hc. apply N.lt_asymm. reflexivity.
Qed.

(** C5 (as the code has it): on either string backend, and for any
    case tables that treat ASCII as ASCII does, normalising twice
    gives what normalising once gives for a null cell and for every
    string each of whose characters title-casing writes as a single
    character of the same casedness and spacing that it then leaves
    unchanged; every ASCII string is such a string; and
    "pediatrician " becomes "Paediatrician". *)
Theorem Specialty_idempotent_stable (T : CaseTables) :
  ascii_exact T ->
  (forall s, stable_str T s ->
             Specialty_with T (Specialty_with T (Some s))
             = Specialty_with T (Some s))
  /\ (forall s, ascii_str s -> stable_str T s)
  /\ Specialty_with T (Specialty_with T None) = Specialty_with T None
  /\ Specialty_with T (Some (of_string "pediatrician "))
     = Some (of_string "Paediatrician").
Proof.
  intros HT.
  split; [intros s; now apply Specialty_with_idempotent |].
  split; [intros s; now apply ascii_stable |].
  split; [reflexivity |].
  unfold Specialty_with, title_with.
  rewrite (title_from_with_ascii T _ HT)
    by (apply strip_ascii; unfold ascii_str; repeat constructor).
  vm_compute. reflexivity.
Qed.

Lemma Specialty_idempotent_stable_witness :
  Specialty (Specialty (Some (of_string "  paediatrics")))
  = Specialty (Some (of_string "  paediatrics"))
  /\ Specialty_with arrow_tables
       (Specialty_with arrow_tables (Some [65; 304; 98]%N))
     = Specialty_with arrow_tables (Some [65; 304; 98]%N)
  /\ Specialty_with arrow_tables (Some [65; 304; 98]%N)
     = Some [65; 105; 98]%N.
Proof.
  split; [| split].
  - rewrite <- !Specialty_python.
    apply (proj1 (Specialty_idempotent_stable python_tables
                    python_tables_ascii)).
    apply (proj1 (proj2 (Specialty_idempotent_stable python_tables
                           python_tables_ascii))).
    unfold ascii_str. repeat constructor.
  - apply (proj1 (Specialty_idempotent_stable arrow_tables
                    arrow_tables_ascii)).
    unfold stable_str. repeat constructor.
  - reflexivity.
Defined.

(** ** The sort behind the ranking *)














(** ** NumPy's quicksort sorts *)

Section ArrayFacts.

Local Open Scope nat_scope.














End ArrayFacts.

Section QuicksortFacts.

Local Open Scope nat_scope.

Variable v : list Z.

(** *** The partition *)










(** *** Insertion sort of a small range *)






(** *** Heapsort of a range *)


Lemma shuffled_ge_bound (l r : nat) (x y : list nat) (B : Z) :
  shuffled l r x y ->
  (forall k, l <= k <= r -> (B <= val v x k)%Z) ->
  forall k, l <= k <= r -> (B <= val v y k)%Z.
Proof.
  intros (_ & _ & F & _) Hx k Hk.
  destruct (F k Hk) as (k' & Hk' & E). unfold val in *. rewrite E.
  now apply Hx.
Qed.









(** *** The main loop *)






End QuicksortFacts.




(** ** The ranked tables *)



(** On the three rows of the first example the quicksort leaves the
    tied rows in key order. *)
Example sort_values_three_rows :
  sort_values_by np_argsort_quicksort [ex_sums_D1; ex_sums_D2; ex_sums_D3]
  = [ex_sums_D1; ex_sums_D2; ex_sums_D3].
Proof. reflexivity. Qed.



